(** * serial-meter: the TekPower TP4000ZC serial protocol decoder

    A shallow embedding of [serial-meter.c] and the properties of its
    packet framing ([read_packet]), digit decoding ([decode_digit],
    [print_display_number]) and attribute decoding ([decode_attributes],
    [print_attributes]).

    Conventions of the embedding:
    - C [int], [unsigned int], [unsigned long] and [unsigned char] values
      are integers in [Z]; bit operations are [Z.land], [Z.lor],
      [Z.shiftl], [Z.shiftr].
    - [unsigned char *buf] is a [list Z], read with [load] and written
      with [store]; [main] allocates 15 cells, of which 0..13 are used.
    - The serial line and the standard output are the two components of
      [world]; code that reads or prints lives in the monad [io], whose
      outcome is either a returned value or the status of [exit]. *)

From Stdlib Require Import ZArith String Ascii List Lia Bool.
From stdpp Require Import base list strings pretty.

Local Open Scope Z_scope.

(** ** Buffers *)

(** [buf[i]] as an rvalue.  The program only reads cells inside the array. *)
Definition load (buf : list Z) (i : Z) : Z := buf !!! Z.to_nat i.

(** [buf[i] = v].  A write outside the array would be undefined behaviour in
    C; here it leaves the list alone, and the theorems that need the write to
    land assume the buffer is long enough. *)
Definition store (buf : list Z) (i : Z) (v : Z) : list Z := <[Z.to_nat i := v]> buf.

(** ** The world: serial input and standard output *)

Record world : Type := World {
  pending : list Z;     (* bytes the descriptor still delivers, then end of file *)
  stdout : string       (* everything printed so far *)
}.

Inductive outcome (A : Type) : Type :=
| Ret (a : A)            (* the call returned [a] *)
| Exit (status : Z).     (* the process called [exit status] *)
Arguments Ret {A} a.
Arguments Exit {A} status.

Definition io (A : Type) : Type := world -> outcome A * world.

#[global] Instance io_ret : MRet io := fun A a w => (Ret a, w).
#[global] Instance io_bind : MBind io := fun A B f m w =>
  match m w with
  | (Ret a, w') => f a w'
  | (Exit s, w') => (Exit s, w')
  end.

(** [exit(status)] *)
Definition exit {A : Type} (status : Z) : io A := fun w => (Exit status, w).

(** [printf] of an already formatted text. *)
Definition printf (text : string) : io unit := fun w =>
  (Ret tt, World (pending w) (stdout w +:+ text)).

(** [n = read(fd, &byte, 1)]: returns [(n, byte)].  At end of file [n] is 0
    and [byte] keeps its value; otherwise [n] is 1 and the low byte of the
    [int byte] (whose other bytes stay 0) is the byte read. *)
Definition read (byte : Z) : io (Z * Z) := fun w =>
  match pending w with
  | [] => (Ret (0, byte), w)
  | b :: rest => (Ret (1, b), World rest (stdout w))
  end.

(** ** Formatting *)

Definition nl : string := String "010"%char "".

Definition hex_digit (d : Z) : string :=
  String.substring (Z.to_nat d) 1 "0123456789ABCDEF".

Fixpoint fmt_X_go (fuel : nat) (v : Z) : string :=
  match fuel with
  | O => ""
  | S fuel' =>
      (if v <? 16 then "" else fmt_X_go fuel' (v / 16)) +:+ hex_digit (v mod 16)
  end.

(** [%X] of a non-negative 32-bit value (at most 8 hexadecimal digits). *)
Definition fmt_X (v : Z) : string := fmt_X_go 8 v.

(** [%02X] *)
Definition fmt_02X (v : Z) : string :=
  if v <? 16 then "0" +:+ fmt_X v else fmt_X v.

(** [%d] *)
Definition fmt_d (v : Z) : string := pretty v.

(** ** read_packet *)

(** [for (x = 0; x < 14; x++) buf[x] = 0;] with [k] iterations left. *)
Fixpoint clear_loop (k : nat) (x : Z) (buf : list Z) : list Z :=
  match k with
  | O => buf
  | S k' => clear_loop k' (x + 1) (store buf x 0)
  end.

(** The body of [for (x = 0; x < 15; x++)], with [k = 15 - x] iterations
    left; when none is left the code after the loop runs. *)
Fixpoint read_loop (k : nat) (byte bytes_read : Z) (buf : list Z)
  : io (Z * list Z) :=
  match k with
  | O =>
      printf ("Read too many bytes." +:+ nl);;
      mret (-1, buf)
  | S k' =>
      '(n, byte) ← read byte;
      if n <=? 0 then
        printf ("Read EOF" +:+ nl);;
        exit 0
      else if byte =? 0 then
        printf ("Meter ON." +:+ nl);;
        mret (-1, buf)
      else
        let idx := Z.land (Z.shiftr byte 4) 15 in
        if (idx =? 0) || (idx =? 15) then
          printf ("Read invalid byte 0x" +:+ fmt_02X byte +:+ nl);;
          mret (-1, buf)
        else
          let buf := store buf (idx - 1) (Z.land byte 15) in
          let bytes_read := bytes_read + 1 in
          if idx =? 14 then
            if bytes_read <? 13 then
              printf ("Only read " +:+ fmt_d bytes_read +:+ " bytes of packet." +:+ nl);;
              mret (-1, buf)
            else
              mret (0, buf)
          else
            read_loop k' byte bytes_read buf
  end.

(** [int read_packet(int fd, unsigned char *buf)]: the returned pair is the
    [int] result and the contents of [buf] on return. *)
Definition read_packet (buf : list Z) : io (Z * list Z) :=
  let buf := clear_loop 14 0 buf in
  read_loop 15 0 0 buf.

(** ** decode_digit *)

Definition lcd_segments : list Z :=
  [ 0x7D; 0x05; 0x5B; 0x1F; 0x27; 0x3E; 0x7E; 0x15; 0x7F; 0x3F; 0x68; 0x00 ].

(** Conversion of an [unsigned int] to [int] (two's complement). *)
Definition to_int (v : Z) : Z :=
  if v <? 2147483648 then v else v - 4294967296.

(** [for (n = 0; n < 12; n++) if (lcd_segments[n] == value) return n;]
    followed by [return -1], with [k = 12 - n] iterations left. *)
Fixpoint decode_digit_loop (k : nat) (n : Z) (value : Z) : Z :=
  match k with
  | O => -1
  | S k' =>
      if load lcd_segments n =? value then n
      else decode_digit_loop k' (n + 1) value
  end.

Definition decode_digit (byte1 byte2 : Z) : Z :=
  let value := to_int (Z.lor (Z.shiftl (Z.land byte1 7) 4) byte2) in
  decode_digit_loop 12 0 value.

(** ** print_display_number *)

(** The body of [for (n = 1; n < 8; n += 2)], with [k] iterations left. *)
Fixpoint print_display_loop (k : nat) (n : Z) (buf : list Z) : io Z :=
  match k with
  | O => mret 0
  | S k' =>
      (if negb (Z.land (load buf n) 8 =? 0) then
         if n =? 1 then printf "-" else printf "."
       else mret tt);;
      let val := decode_digit (load buf n) (load buf (n + 1)) in
      if val =? -1 then
        printf ("Unknown digit " +:+ fmt_X (load buf n) +:+ " "
                +:+ fmt_X (load buf (n + 1)) +:+ nl);;
        mret (-1)
      else
        (if val <? 10 then printf (fmt_d val)
         else
           (if val =? 10 then printf "L" else mret tt);;
           (if val =? 11 then printf " " else mret tt);;
           (if val >? 11 then printf "?" else mret tt));;
        print_display_loop k' (n + 2) buf
  end.

Definition print_display_number (buf : list Z) : io Z :=
  print_display_loop 4 1 buf.

(** ** Attributes *)

Definition ATTR_UNK_11 : Z := Z.shiftl 1 0.
Definition ATTR_AUTO : Z := Z.shiftl 1 1.
Definition ATTR_DC : Z := Z.shiftl 1 2.
Definition ATTR_AC : Z := Z.shiftl 1 3.
Definition ATTR_DIODE : Z := Z.shiftl 1 4.
Definition ATTR_KILO : Z := Z.shiftl 1 5.
Definition ATTR_NANO : Z := Z.shiftl 1 6.
Definition ATTR_MICRO : Z := Z.shiftl 1 7.
Definition ATTR_BEEP : Z := Z.shiftl 1 8.
Definition ATTR_MEGA : Z := Z.shiftl 1 9.
Definition ATTR_PERCENT : Z := Z.shiftl 1 10.
Definition ATTR_MILI : Z := Z.shiftl 1 11.
Definition ATTR_HOLD : Z := Z.shiftl 1 12.
Definition ATTR_REL : Z := Z.shiftl 1 13.
Definition ATTR_OHMS : Z := Z.shiftl 1 14.
Definition ATTR_FARAD : Z := Z.shiftl 1 15.
Definition ATTR_UNK_D1 : Z := Z.shiftl 1 16.
Definition ATTR_HERTZ : Z := Z.shiftl 1 17.
Definition ATTR_VOLTS : Z := Z.shiftl 1 18.
Definition ATTR_AMPS : Z := Z.shiftl 1 19.
Definition ATTR_UNK_E1 : Z := Z.shiftl 1 20.
Definition ATTR_UNK_E2 : Z := Z.shiftl 1 21.
Definition ATTR_DEGC : Z := Z.shiftl 1 22.
Definition ATTR_UNK_E8 : Z := Z.shiftl 1 23.

Definition attribute_table : list string :=
  [ "(unknown 11)"; "AUTO"; "DC"; "AC";
    "DIODE"; "kilo"; "nano"; "micro";
    "beep"; "mega"; "Percent"; "mili";
    "HOLD"; "REL"; "Ohms"; "Farads";
    "(unknown 0xD1)"; "Hertz"; "Volts"; "Amps";
    "(unknown E1)"; "(unknown E2)"; "DegreesC"; "(unknown E8)" ].

(** The body of [for (bit = 0; bit < 24; bit++)], with [k = 24 - bit]
    iterations left.  [/] and [%] are C's truncating operators. *)
Fixpoint decode_attributes_loop (k : nat) (bit : Z) (buf : list Z)
  (attributes : Z) : Z :=
  match k with
  | O => attributes
  | S k' =>
      let byte := if bit <? 4 then 0 else Z.quot bit 4 + 8 in
      let attr := Z.rem bit 4 in
      let attributes :=
        if negb (Z.land (load buf byte) (Z.shiftl 1 attr) =? 0)
        then Z.lor attributes (Z.shiftl 1 bit)
        else attributes in
      decode_attributes_loop k' (bit + 1) buf attributes
  end.

Definition decode_attributes (buf : list Z) : Z :=
  decode_attributes_loop 24 0 buf 0.

(** The body of [for (n = 0; n < 24; n++)], with [k = 24 - n] iterations
    left. *)
Fixpoint print_attributes_loop (k : nat) (n : Z) (attributes : Z) : io unit :=
  match k with
  | O => mret tt
  | S k' =>
      (if negb (Z.land attributes (Z.shiftl 1 n) =? 0)
       then printf (attribute_table !!! Z.to_nat n +:+ " ")
       else mret tt);;
      print_attributes_loop k' (n + 1) attributes
  end.

Definition print_attributes (attributes : Z) : io unit :=
  print_attributes_loop 24 0 attributes.

(** ** main *)

(** One turn of [while (1)] in [main]; [continue] ends the turn.  The value
    returned is the contents of [buf] at the end of the turn. *)
Definition main_body (buf : list Z) : io (list Z) :=
  '(n, buf) ← read_packet buf;
  if negb (n =? 0) then mret buf
  else
    n ← print_display_number buf;
    if negb (n =? 0) then mret buf
    else
      printf " ";;
      let attributes := decode_attributes buf in
      print_attributes attributes;;
      printf nl;;
      mret buf.

(** [while (1)] in [main], run for at most [fuel] turns: [Some (status, w)]
    when the process has called [exit status] within them, [None] when it is
    still running after them (the loop has no other way out). *)
Fixpoint main_loop (fuel : nat) (buf : list Z) (w : world) : option (Z * world) :=
  match fuel with
  | O => None
  | S fuel' =>
      match main_body buf w with
      | (Ret buf', w') => main_loop fuel' buf' w'
      | (Exit status, w') => Some (status, w')
      end
  end.

(** ** configure_serial_port *)

(** The text that [sprintf(string, "stty -F %s 2400 -parity", dev)] writes
    to [char string[64]], without its terminating zero. *)
Definition stty_command (dev : string) : string :=
  "stty -F " +:+ dev +:+ " 2400 -parity".

(** [sprintf] into [char string[64]]: the text and its terminating zero
    must fit the 64 bytes; a longer text is written past the end of the
    array, which is undefined behaviour ([None]). *)
Definition sprintf_string (text : string) : option string :=
  if (String.length text + 1 <=? 64)%nat then Some text else None.

(** [sprintf(string, ...); return system(string);] the C library's
    [system] is a parameter. *)
Definition configure_serial_port (system : string -> Z) (dev : string)
  : option Z :=
  match sprintf_string (stty_command dev) with
  | Some command => Some (system command)
  | None => None
  end.

(** The packet of the comment at the head of the source:
    the display reads 04.71 k ohms. *)
Definition example_packet : list Z :=
  [ 0x27; 0x3D; 0x42; 0x57; 0x69; 0x75; 0x80; 0x95; 0xA2; 0xB0; 0xC4; 0xD0; 0xE8 ].

Definition fresh_buf : list Z := replicate 15 0.

(** ** Vocabulary of the properties *)

(** [P] holds of 0, 1, ..., [k - 1]: the finite conjunction behind a case
    analysis on a bounded index. *)
Fixpoint All_below (k : nat) (P : Z -> Prop) : Prop :=
  match k with
  | O => True
  | S k' => All_below k' P /\ P (Z.of_nat k')
  end.

(** The tag (byte number) of a received byte: its upper four bits. *)
Definition tag (byte : Z) : Z := Z.land (Z.shiftr byte 4) 15.

(** The data nibble of a received byte: its lower four bits. *)
Definition nibble (byte : Z) : Z := Z.land byte 15.

(** A byte whose tag is in 1..14. *)
Definition valid_byte (byte : Z) : bool := (1 <=? tag byte) && (tag byte <=? 14).

(** A valid byte that does not end the packet: tag in 1..13. *)
Definition body_byte (byte : Z) : bool := (1 <=? tag byte) && (tag byte <=? 13).

(** The packed segment code of a digit pair. *)
Definition segment_code (byte1 byte2 : Z) : Z :=
  Z.lor (Z.shiftl (Z.land byte1 7) 4) byte2.

(** The frame index holding attribute bit [n]. *)
Definition attr_index (n : Z) : Z := if n <? 4 then 0 else n / 4 + 8.

(** The attribute bit fed by bit [k] of the nibble at frame index [i]
    (for [i] = 0 or 9..13). *)
Definition attr_bit (i k : Z) : Z := if i =? 0 then k else 4 * (i - 8) + k.

(** The buffer after the bytes of [l] have been stored, oldest first: each
    byte's nibble goes to the cell of its tag. *)
Definition receive (l : list Z) (buf : list Z) : list Z :=
  foldl (fun buf b => store buf (tag b - 1) (nibble b)) buf l.

(** The number of distinct tags among the bytes of [l]. *)
Definition distinct_tags (l : list Z) : nat := length (remove_dups (map tag l)).

(** The frame indices that carry attributes. *)
Definition attr_indices : list Z := [0; 9; 10; 11; 12; 13].

(** The frame assembled from [example_packet]. *)
Definition example_frame : list Z :=
  [0; 0x7; 0xD; 0x2; 0x7; 0x9; 0x5; 0x0; 0x5; 0x2; 0x0; 0x4; 0x0; 0x8; 0].

(** What [print_display_number] prints ahead of the digit of the pair at
    frame index [n], by bit 3 of the pair's first nibble. *)
Definition mark_text (n byte1 : Z) : string :=
  if Z.testbit byte1 3 then (if n =? 1 then "-" else ".") else "".

(** What [print_display_number] prints for a decoded digit. *)
Definition digit_text (val : Z) : string :=
  if val <? 10 then fmt_d val
  else (if val =? 10 then "L" else "") +:+
       (if val =? 11 then " " else "") +:+
       (if val >? 11 then "?" else "").

(** The digit symbol of the pair at frame index [n]. *)
Definition digit_at (buf : list Z) (n : Z) : Z :=
  decode_digit (load buf n) (load buf (n + 1)).

Definition pair_text (buf : list Z) (n : Z) : string :=
  mark_text n (load buf n) +:+ digit_text (digit_at buf n).

(** The text of [k] pairs, from the pair at frame index [n] on. *)
Fixpoint display_prefix (k : nat) (n : Z) (buf : list Z) : string :=
  match k with
  | O => ""
  | S k' => pair_text buf n +:+ display_prefix k' (n + 2) buf
  end.

(** The [k] pairs from frame index [n] on all decode to a symbol. *)
Fixpoint digits_valid (k : nat) (n : Z) (buf : list Z) : bool :=
  match k with
  | O => true
  | S k' => negb (digit_at buf n =? -1) && digits_valid k' (n + 2) buf
  end.

(** The message printed for an undecodable pair at frame index [n]. *)
Definition unknown_text (buf : list Z) (n : Z) : string :=
  "Unknown digit " +:+ fmt_X (load buf n) +:+ " "
  +:+ fmt_X (load buf (n + 1)) +:+ nl.

(** C6 as the specification words it: the sign ahead of the first digit, and
    a decimal point after the digit of each of pairs 2-4 whose bit 3 is
    set. *)
Definition claimed_display (buf : list Z) : string :=
  (if Z.testbit (load buf 1) 3 then "-" else "") +:+
  digit_text (digit_at buf 1) +:+
  digit_text (digit_at buf 3) +:+
  (if Z.testbit (load buf 3) 3 then "." else "") +:+
  digit_text (digit_at buf 5) +:+
  (if Z.testbit (load buf 5) 3 then "." else "") +:+
  digit_text (digit_at buf 7) +:+
  (if Z.testbit (load buf 7) 3 then "." else "").

(** The four digit symbols and the four sign / decimal-point bits of a
    frame. *)
Definition digits_and_flags (buf : list Z) : list Z * list bool :=
  (map (digit_at buf) [1; 3; 5; 7],
   map (fun n => Z.testbit (load buf n) 3) [1; 3; 5; 7]).

(** C7 as the specification words it, for two frames: what the decoder
    returns carries the partial decode, so frames that differ in a digit or
    a flag are told apart by it. *)
Definition partial_decode_claim (buf1 buf2 : list Z) : Prop :=
  print_display_number buf1 (World [] "") = print_display_number buf2 (World [] "") ->
  digits_and_flags buf1 = digits_and_flags buf2.

(** Two frames whose first pair (0, 1) is no known segment pattern; the
    other pairs read 1, 2, .3 in the first and 4, 5, 6 in the second. *)
Definition bad_first_digit_frame : list Z :=
  [0; 0x0; 0x1; 0x0; 0x5; 0x5; 0xB; 0x9; 0xF; 0; 0; 0; 0; 8; 0].
Definition bad_first_digit_frame' : list Z :=
  [0; 0x0; 0x1; 0x2; 0x7; 0x3; 0xE; 0x7; 0xE; 0; 0; 0; 0; 8; 0].

(** C1 as the specification words it, at the bytes [l] arriving on a fresh
    buffer: 13 or 14 valid bytes, the last of tag 14, at least 13 distinct
    tags, give a complete frame that holds the nibble of every byte. *)
Definition complete_frame_claim (l : list Z) : Prop :=
  (length l = 13 \/ length l = 14)%nat ->
  Forall (fun b => valid_byte b = true) l ->
  tag (List.last l 0) = 14 ->
  (13 <= distinct_tags l)%nat ->
  exists frame,
    read_packet fresh_buf (World l "") = (Ret (0, frame), World [] "") /\
    forall b, b ∈ l -> load frame (tag b - 1) = nibble b.

(** C5 as the specification words it, at the bytes [l] arriving on a fresh
    buffer: a complete frame was fed by at least 13 distinct tags. *)
Definition populated_claim (l : list Z) : Prop :=
  forall frame,
    read_packet fresh_buf (World l "") = (Ret (0, frame), World [] "") ->
    (13 <= distinct_tags l)%nat.

(** Tags 2, 2, 3, ..., 13, 14: fourteen bytes, thirteen distinct tags. *)
Definition repeated_tag_packet : list Z :=
  [ 0x21; 0x25; 0x31; 0x41; 0x51; 0x61; 0x71; 0x81; 0x91; 0xA1; 0xB1; 0xC1;
    0xD1; 0xE1 ].

(** Tags 14, 1, 2, ..., 12, 14: fourteen bytes, thirteen distinct tags. *)
Definition early_terminal_packet : list Z :=
  [ 0xE1; 0x11; 0x21; 0x31; 0x41; 0x51; 0x61; 0x71; 0x81; 0x91; 0xA1; 0xB1;
    0xC1; 0xE1 ].

(** Tag 2 twelve times, then tag 14: thirteen bytes, two distinct tags. *)
Definition two_tag_packet : list Z := replicate 12 0x21 ++ [0xE1].

(** *** Framing attempts *)

(** How a framing attempt ends, after a run of bytes with tags 1..13: at the
    end of the input, on a zero byte, on a byte with tag 0 or 15, on a byte
    with tag 14 that comes too early or in time, or at the limit of bytes. *)
Inductive attempt_end : Type :=
| AtEOF
| AtPowerOn
| AtInvalid (b : Z)
| AtShort (e : Z)
| AtComplete (e : Z)
| AtLimit.

(** The input of an attempt: the run [pre], the byte that ends the attempt
    if there is one, and the bytes [rest] that the attempt leaves unread. *)
Definition attempt_input (pre : list Z) (ending : attempt_end) (rest : list Z)
  : list Z :=
  pre ++ match ending with
         | AtEOF => []
         | AtPowerOn => 0 :: rest
         | AtInvalid b | AtShort b | AtComplete b => b :: rest
         | AtLimit => rest
         end.

(** The conditions under which the loop, with [k] turns left and
    [bytes_read] bytes counted, ends in [ending] after the run [pre]. *)
Definition attempt_ok (k : nat) (bytes_read : Z) (pre : list Z)
  (ending : attempt_end) : Prop :=
  Forall (fun b => body_byte b = true) pre /\
  match ending with
  | AtEOF | AtPowerOn => (length pre < k)%nat
  | AtInvalid b =>
      (length pre < k)%nat /\ b <> 0 /\ (tag b = 0 \/ tag b = 15)
  | AtShort e =>
      (length pre < k)%nat /\ tag e = 14 /\
      bytes_read + Z.of_nat (length pre) + 1 < 13
  | AtComplete e =>
      (length pre < k)%nat /\ tag e = 14 /\
      13 <= bytes_read + Z.of_nat (length pre) + 1
  | AtLimit => length pre = k
  end.

(** What the attempt returns and the world it leaves. *)
Definition attempt_result (bytes_read : Z) (buf pre : list Z)
  (ending : attempt_end) (rest : list Z) (out : string)
  : outcome (Z * list Z) * world :=
  match ending with
  | AtEOF => (Exit 0, World [] (out +:+ ("Read EOF" +:+ nl)))
  | AtPowerOn =>
      (Ret (-1, receive pre buf), World rest (out +:+ ("Meter ON." +:+ nl)))
  | AtInvalid b =>
      (Ret (-1, receive pre buf),
       World rest (out +:+ ("Read invalid byte 0x" +:+ fmt_02X b +:+ nl)))
  | AtShort e =>
      (Ret (-1, receive (pre ++ [e]) buf),
       World rest
         (out +:+ ("Only read "
                   +:+ fmt_d (bytes_read + Z.of_nat (length pre) + 1)
                   +:+ " bytes of packet." +:+ nl)))
  | AtComplete e => (Ret (0, receive (pre ++ [e]) buf), World rest out)
  | AtLimit =>
      (Ret (-1, receive pre buf),
       World rest (out +:+ ("Read too many bytes." +:+ nl)))
  end.

(** *** The meter's side of the protocol *)

(** The byte the meter sends for position [i] (counted from 0) with data
    nibble [v]: the position plus one in the upper four bits. *)
Definition meter_byte (i : nat) (v : Z) : Z :=
  Z.lor (Z.shiftl (Z.of_nat i + 1) 4) v.

(** The bytes of a frame, in sequence. *)
Definition meter_packet (frame : list Z) : list Z := imap meter_byte frame.

(** The six attribute nibbles of a 24-bit attribute word, at their frame
    indices 0 and 9..13; the digit cells are left at 0. *)
Definition attribute_frame (attributes : Z) : list Z :=
  [ Z.land attributes 15; 0; 0; 0; 0; 0; 0; 0; 0;
    Z.land (Z.shiftr attributes 4) 15;
    Z.land (Z.shiftr attributes 8) 15;
    Z.land (Z.shiftr attributes 12) 15;
    Z.land (Z.shiftr attributes 16) 15;
    Z.land (Z.shiftr attributes 20) 15 ].

(** The two nibbles of a digit pair that shows table symbol [d], with the
    sign / decimal-point segment lit or not. *)
Definition digit_pair (d : Z) (point : bool) : Z * Z :=
  let code := load lcd_segments d in
  (Z.lor (Z.shiftr code 4) (if point then 8 else 0), Z.land code 15).

(** *** Printed attributes *)

(** The names of the attributes whose bit is set, in the order of the
    table. *)
Definition attribute_names (attributes : Z) : list string :=
  map (fun n : nat => attribute_table !!! n)
      (List.filter (fun n : nat => Z.testbit attributes (Z.of_nat n))
                   (seq 0 24)).

(** Each name followed by a space. *)
Definition names_text (names : list string) : string :=
  foldr (fun name text => name +:+ " " +:+ text) "" names.

(** The line that a turn of [main] prints for a frame whose digits
    decode. *)
Definition reading_line (frame : list Z) : string :=
  display_prefix 4 1 frame +:+ " " +:+
  names_text (attribute_names (decode_attributes frame)) +:+ nl.

(** A frame as the meter holds it: 14 nibbles, the four pairs showing
    known symbols. *)
Definition meter_frame (cells : list Z) : Prop :=
  length cells = 14%nat /\ Forall (fun v => 0 <= v <= 15) cells /\
  digits_valid 4 1 cells = true.

(** The message of an attempt that ends otherwise than with a complete
    frame. *)
Definition attempt_message (pre : list Z) (ending : attempt_end) : string :=
  match ending with
  | AtEOF => "Read EOF" +:+ nl
  | AtPowerOn => "Meter ON." +:+ nl
  | AtInvalid b => "Read invalid byte 0x" +:+ fmt_02X b +:+ nl
  | AtShort _ =>
      "Only read " +:+ fmt_d (Z.of_nat (length pre) + 1)
      +:+ " bytes of packet." +:+ nl
  | AtComplete _ => ""
  | AtLimit => "Read too many bytes." +:+ nl
  end.

(** The endings after which [main] goes on to the next attempt without
    decoding anything. *)
Definition attempt_failed (ending : attempt_end) : bool :=
  match ending with
  | AtPowerOn | AtInvalid _ | AtShort _ | AtLimit => true
  | AtEOF | AtComplete _ => false
  end.

(** * Properties *)

(** ** Bounded case analysis *)

Lemma All_below_elim (k : nat) (P : Z -> Prop) :
  All_below k P -> forall n, 0 <= n < Z.of_nat k -> P n.
Proof.
  induction k as [|k IH]; intros Hall n Hn; [lia|].
  destruct Hall as [Hall Hk].
  destruct (Z.eq_dec n (Z.of_nat k)) as [->|Hne]; [exact Hk|].
  apply IH; [exact Hall | lia].
Qed.

(** Proves a goal about an integer [n] known to lie in [0 .. k - 1] by
    proving it with [tac] for each of the [k] values. *)
Ltac by_cases_below k n tac :=
  pattern n; apply (All_below_elim k); [| lia];
  cbn [All_below Z.of_nat Pos.of_succ_nat Pos.succ];
  repeat match goal with |- _ /\ _ => split end;
  try exact I; tac.

(** ** Digit decoding *)

Lemma decode_digit_loop_range (k : nat) (n value : Z) :
  decode_digit_loop k n value = -1 \/
  n <= decode_digit_loop k n value < n + Z.of_nat k.
Proof.
  revert n; induction k as [|k IH]; intros n; simpl decode_digit_loop.
  - now left.
  - destruct (load lcd_segments n =? value).
    + right; lia.
    + destruct (IH (n + 1)) as [H|H]; [now left | right; lia].
Qed.

Lemma segment_code_range (byte1 byte2 : Z) :
  0 <= byte2 < 2 ^ 32 -> 0 <= segment_code byte1 byte2 < 2 ^ 32.
Proof.
  intros Hb. unfold segment_code.
  assert (H7 : 0 <= Z.land byte1 7 < 8).
  { change 7 with (Z.ones 3). rewrite Z.land_ones by lia.
    apply Z.mod_pos_bound; lia. }
  assert (Hs : 0 <= Z.shiftl (Z.land byte1 7) 4 < 2 ^ 32).
  { rewrite Z.shiftl_mul_pow2 by lia. change (2 ^ 4) with 16. lia. }
  split.
  - apply Z.lor_nonneg; lia.
  - destruct (Z.eq_dec (Z.lor (Z.shiftl (Z.land byte1 7) 4) byte2) 0) as [->|Hne];
      [lia|].
    apply Z.log2_lt_pow2.
    + assert (0 <= Z.lor (Z.shiftl (Z.land byte1 7) 4) byte2)
        by (apply Z.lor_nonneg; lia). lia.
    + rewrite Z.log2_lor by lia.
      apply Z.max_lub_lt.
      * destruct (Z.eq_dec (Z.shiftl (Z.land byte1 7) 4) 0) as [->|?];
          [simpl; lia | apply Z.log2_lt_pow2; lia].
      * destruct (Z.eq_dec byte2 0) as [->|?];
          [simpl; lia | apply Z.log2_lt_pow2; lia].
Qed.

Lemma to_int_table (code c : Z) :
  0 <= code < 2 ^ 32 -> 0 <= c < 128 -> c = to_int code -> code = c.
Proof.
  unfold to_int; intros Hc Hr ->.
  destruct (Z.ltb_spec code 2147483648); lia.
Qed.

(** C3: [decode_digit] looks the segment code
    [((byte1 & 0x7) << 4) | byte2] up in the 12-entry table: the code of
    entry [n] gives [n], a code that is not in the table gives -1, and the
    result depends on the two arguments through the segment code only. *)
Theorem decode_digit_table (byte1 byte2 : Z) :
  0 <= byte2 < 2 ^ 32 ->
  (forall n, 0 <= n < 12 ->
     segment_code byte1 byte2 = load lcd_segments n ->
     decode_digit byte1 byte2 = n) /\
  (~ In (segment_code byte1 byte2) lcd_segments ->
     decode_digit byte1 byte2 = -1) /\
  (forall byte1' byte2',
     segment_code byte1' byte2' = segment_code byte1 byte2 ->
     decode_digit byte1' byte2' = decode_digit byte1 byte2) /\
  decode_digit 0x7 0xD = 0 /\
  decode_digit 0x0 0x5 = 1 /\
  map (fun c => decode_digit (Z.shiftr c 4) (Z.land c 15)) lcd_segments
    = [0; 1; 2; 3; 4; 5; 6; 7; 8; 9; 10; 11].
Proof.
  intros Hb2. pose proof (segment_code_range byte1 byte2 Hb2) as Hcode.
  split; [|split; [|split; [|repeat split; reflexivity]]].
  - intros n Hn Heq. unfold decode_digit. fold (segment_code byte1 byte2).
    rewrite Heq. clear Heq.
    by_cases_below 12%nat n ltac:(reflexivity).
  - intros Hnot. unfold decode_digit. fold (segment_code byte1 byte2).
    set (code := segment_code byte1 byte2) in *.
    cbn [decode_digit_loop].
    repeat match goal with
    | |- context [load lcd_segments ?i =? ?v] =>
        destruct (Z.eqb_spec (load lcd_segments i) v) as [Heq|_];
        [ exfalso; apply Hnot;
          rewrite (to_int_table code (load lcd_segments i) Hcode
                     ltac:(vm_compute; split; [discriminate|reflexivity]) Heq);
          vm_compute; tauto
        | ]
    end.
    reflexivity.
  - intros b1 b2 Heq. unfold decode_digit.
    fold (segment_code b1 b2) (segment_code byte1 byte2). now rewrite Heq.
Qed.

Lemma decode_digit_table_witness :
  decode_digit 0x9 0x5 = 7 /\ decode_digit 0x0 0x8 = -1 /\
  decode_digit 0xF 0xD = decode_digit 0x7 0xD.
Proof.
  split; [|split].
  - apply (proj1 (decode_digit_table 0x9 0x5 ltac:(lia)) 7); [lia | reflexivity].
  - apply (proj1 (proj2 (decode_digit_table 0x0 0x8 ltac:(lia)))).
    vm_compute. intros H. repeat (destruct H as [H|H]; [discriminate H|]). exact H.
  - apply (proj1 (proj2 (proj2 (decode_digit_table 0x7 0xD ltac:(lia))))).
    reflexivity.
Defined.

(** C10: [decode_digit] returns -1 or an index 0..11 of the table, so the
    test [val > 11] under which [print_display_number] prints a question
    mark never succeeds, and that statement of the loop prints nothing. *)
Theorem decode_digit_range (byte1 byte2 : Z) :
  (decode_digit byte1 byte2 = -1 \/ 0 <= decode_digit byte1 byte2 <= 11) /\
  (decode_digit byte1 byte2 >? 11) = false /\
  (if decode_digit byte1 byte2 >? 11 then printf "?" else mret tt) = mret tt.
Proof.
  assert (Hrange : decode_digit byte1 byte2 = -1 \/
                   0 <= decode_digit byte1 byte2 <= 11).
  { unfold decode_digit.
    destruct (decode_digit_loop_range 12 0
                (to_int (Z.lor (Z.shiftl (Z.land byte1 7) 4) byte2)))
      as [H|H]; [now left | right; lia]. }
  assert (Hguard : (decode_digit byte1 byte2 >? 11) = false)
    by (rewrite Z.gtb_ltb; apply Z.ltb_ge; lia).
  split; [exact Hrange | split; [exact Hguard|]].
  now rewrite Hguard.
Qed.

(** ** Attribute decoding *)

(** The C test [x & (1 << i)] is the test of bit [i] of [x]. *)
Lemma land_bit_test (x i : Z) :
  0 <= i -> negb (Z.land x (Z.shiftl 1 i) =? 0) = Z.testbit x i.
Proof.
  intros Hi. rewrite Z.shiftl_1_l.
  destruct (Z.testbit x i) eqn:Hx.
  - destruct (Z.eqb_spec (Z.land x (2 ^ i)) 0) as [H0|_]; [|reflexivity].
    assert (Hb : Z.testbit (Z.land x (2 ^ i)) i = true).
    { rewrite Z.land_spec, Hx, Z.pow2_bits_true by lia. reflexivity. }
    rewrite H0, Z.bits_0 in Hb. discriminate.
  - assert (H0 : Z.land x (2 ^ i) = 0).
    { apply Z.bits_inj'; intros m Hm.
      rewrite Z.land_spec, Z.bits_0, Z.pow2_bits_eqb by lia.
      destruct (Z.eqb_spec i m) as [->|_];
        [now rewrite Hx | apply andb_false_r]. }
    now rewrite H0.
Qed.

(** After the iterations for [bit .. bit + k - 1], those bits of the
    accumulator have been or-ed with their source bits. *)
Lemma decode_attributes_loop_bits (k : nat) (bit : Z) (buf : list Z) (acc m : Z) :
  0 <= bit -> 0 <= m ->
  Z.testbit (decode_attributes_loop k bit buf acc) m =
    Z.testbit acc m ||
    ((bit <=? m) && (m <? bit + Z.of_nat k) &&
     Z.testbit (load buf (attr_index m)) (m mod 4)).
Proof.
  revert bit acc; induction k as [|k IH]; intros bit acc Hbit Hm.
  - cbn [decode_attributes_loop].
    replace ((bit <=? m) && (m <? bit + Z.of_nat 0)) with false
      by (destruct (Z.leb_spec bit m), (Z.ltb_spec m (bit + Z.of_nat 0));
          try reflexivity; lia).
    now rewrite orb_false_r.
  - cbn [decode_attributes_loop].
    rewrite IH by lia.
    rewrite Z.rem_mod_nonneg, Z.quot_div_nonneg by lia.
    rewrite land_bit_test by (apply Z.mod_pos_bound; lia).
    fold (attr_index bit).
    destruct (Z.eq_dec m bit) as [->|Hne].
    + replace (bit + 1 <=? bit) with false by (symmetry; apply Z.leb_gt; lia).
      replace (bit <=? bit) with true by (symmetry; apply Z.leb_le; lia).
      replace (bit <? bit + Z.of_nat (S k)) with true
        by (symmetry; apply Z.ltb_lt; lia).
      cbn [andb]. rewrite orb_false_r.
      destruct (Z.testbit (load buf (attr_index bit)) (bit mod 4)); cbn [negb].
      * rewrite Z.lor_spec, Z.shiftl_1_l, Z.pow2_bits_true by lia.
        now rewrite orb_true_r.
      * now rewrite orb_false_r.
    + assert (Hacc : Z.testbit
               (if Z.testbit (load buf (attr_index bit)) (bit mod 4)
                then Z.lor acc (Z.shiftl 1 bit) else acc) m = Z.testbit acc m).
      { destruct (Z.testbit (load buf (attr_index bit)) (bit mod 4));
          [|reflexivity].
        rewrite Z.lor_spec, Z.shiftl_1_l, Z.pow2_bits_false by lia.
        apply orb_false_r. }
      rewrite Hacc. f_equal. f_equal.
      destruct (Z.leb_spec (bit + 1) m), (Z.leb_spec bit m),
        (Z.ltb_spec m (bit + 1 + Z.of_nat k)),
        (Z.ltb_spec m (bit + Z.of_nat (S k))); try reflexivity; lia.
Qed.

Lemma decode_attributes_bits (buf : list Z) (m : Z) :
  0 <= m ->
  Z.testbit (decode_attributes buf) m =
    (m <? 24) && Z.testbit (load buf (attr_index m)) (m mod 4).
Proof.
  intros Hm. unfold decode_attributes.
  rewrite decode_attributes_loop_bits by lia.
  rewrite Z.bits_0. cbn [orb].
  replace (0 <=? m) with true by (symmetry; apply Z.leb_le; lia).
  reflexivity.
Qed.

Lemma attr_bit_index (m : Z) :
  0 <= m < 24 ->
  In (attr_index m) attr_indices /\ 0 <= m mod 4 < 4 /\
  attr_bit (attr_index m) (m mod 4) = m.
Proof.
  intros Hm.
  by_cases_below 24%nat m ltac:(vm_compute; intuition congruence).
Qed.

Lemma attr_index_bit (i k : Z) :
  In i attr_indices -> 0 <= k < 4 ->
  0 <= attr_bit i k < 24 /\ attr_index (attr_bit i k) = i /\
  attr_bit i k mod 4 = k.
Proof.
  intros Hi Hk.
  unfold attr_indices in Hi; cbn [In] in Hi.
  repeat (destruct Hi as [<-|Hi]); try contradiction;
    by_cases_below 4%nat k ltac:(vm_compute; intuition congruence).
Qed.

Lemma load_store_eq (buf : list Z) (i v : Z) :
  (Z.to_nat i < length buf)%nat -> load (store buf i v) i = v.
Proof. intros H. unfold load, store. now apply list_lookup_total_insert_eq. Qed.

Lemma load_store_ne (buf : list Z) (i j v : Z) :
  0 <= i -> 0 <= j -> i <> j -> load (store buf i v) j = load buf j.
Proof.
  intros Hi Hj Hne. unfold load, store.
  apply list_lookup_total_insert_ne. lia.
Qed.

Lemma length_store (buf : list Z) (i v : Z) : length (store buf i v) = length buf.
Proof. apply length_insert. Qed.

(** C4: bit [n] (0..23) of [decode_attributes] is bit [n % 4] of the nibble
    at frame index [(n < 4) ? 0 : n/4 + 8]; so the result depends on frame
    indices 0 and 9..13 only, and flipping bit [k] of one of those nibbles
    toggles attribute bit [attr_bit i k] and leaves every other bit alone. *)
Theorem decode_attributes_layout (buf : list Z) :
  (forall n, 0 <= n < 24 ->
     Z.testbit (decode_attributes buf) n =
     Z.testbit (load buf (attr_index n)) (n mod 4)) /\
  (forall buf' : list Z,
     (forall i, In i attr_indices -> load buf' i = load buf i) ->
     decode_attributes buf' = decode_attributes buf) /\
  (forall i k, In i attr_indices -> 0 <= k < 4 ->
     (Z.to_nat i < length buf)%nat ->
     decode_attributes (store buf i (Z.lxor (load buf i) (Z.shiftl 1 k))) =
     Z.lxor (decode_attributes buf) (Z.shiftl 1 (attr_bit i k))).
Proof.
  split; [|split].
  - intros n Hn. rewrite decode_attributes_bits by lia.
    replace (n <? 24) with true by (symmetry; apply Z.ltb_lt; lia).
    reflexivity.
  - intros buf' Hagree. apply Z.bits_inj'; intros m Hm.
    rewrite !decode_attributes_bits by lia.
    destruct (Z.ltb_spec m 24) as [Hlt|_]; [|reflexivity].
    cbn [andb]. rewrite Hagree; [reflexivity|].
    apply attr_bit_index; lia.
  - intros i k Hi Hk Hlen. apply Z.bits_inj'; intros m Hm.
    destruct (attr_index_bit i k Hi Hk) as (Hrange & Hidx & Hmod).
    rewrite !Z.shiftl_1_l.
    rewrite Z.lxor_spec, !decode_attributes_bits, Z.pow2_bits_eqb by lia.
    destruct (Z.ltb_spec m 24) as [Hlt|Hge]; cbn [andb].
    + destruct (attr_bit_index m (conj Hm Hlt)) as (Hin & Hm4 & Hback).
      destruct (Z.eq_dec (attr_index m) i) as [Heq|Hne].
      * rewrite Heq, load_store_eq, Z.lxor_spec, Z.pow2_bits_eqb by lia.
        f_equal.
        destruct (Z.eqb_spec k (m mod 4)) as [Hk4|Hk4],
          (Z.eqb_spec (attr_bit i k) m) as [Hb|Hb]; try reflexivity.
        -- exfalso; apply Hb. rewrite <- Heq, Hk4. exact Hback.
        -- exfalso; apply Hk4. rewrite <- Hb. symmetry; exact Hmod.
      * assert (Hi0 : 0 <= i)
          by (unfold attr_indices in Hi; cbn [In] in Hi; lia).
        assert (Hm0 : 0 <= attr_index m)
          by (unfold attr_indices in Hin; cbn [In] in Hin; lia).
        rewrite load_store_ne by (try lia; congruence).
        destruct (Z.eqb_spec (attr_bit i k) m) as [Hb|_];
          [|now rewrite xorb_false_r].
        exfalso; apply Hne. now rewrite <- Hb.
    + destruct (Z.eqb_spec (attr_bit i k) m) as [Hb|_]; [lia | reflexivity].
Qed.

Lemma decode_attributes_layout_witness :
  Z.testbit (decode_attributes [0; 7; 13; 2; 7; 9; 5; 0; 5; 2; 0; 4; 0; 8; 0]) 14
    = Z.testbit 4 2 /\
  decode_attributes [0; 1; 1; 1; 1; 1; 1; 1; 1; 2; 0; 4; 0; 8; 9]
    = decode_attributes [0; 7; 13; 2; 7; 9; 5; 0; 5; 2; 0; 4; 0; 8; 0] /\
  decode_attributes [0; 7; 13; 2; 7; 9; 5; 0; 5; 2; 1; 4; 0; 8; 0]
    = Z.lxor (decode_attributes [0; 7; 13; 2; 7; 9; 5; 0; 5; 2; 0; 4; 0; 8; 0])
        ATTR_BEEP.
Proof.
  pose proof (decode_attributes_layout
                [0; 7; 13; 2; 7; 9; 5; 0; 5; 2; 0; 4; 0; 8; 0]) as (H1 & H2 & H3).
  split; [|split].
  - apply (H1 14). lia.
  - apply H2. intros i Hi. unfold attr_indices in Hi; cbn [In] in Hi.
    repeat (destruct Hi as [<-|Hi]; [reflexivity|]). destruct Hi.
  - apply (H3 10 0); [cbn; tauto | lia | cbn; lia].
Defined.

(** ** Packet framing *)

Ltac io_unfold :=
  unfold mbind, io_bind, mret, io_ret, read, printf, exit;
  cbn [pending stdout fst snd].

Lemma body_byte_tag (b : Z) : body_byte b = true <-> 1 <= tag b <= 13.
Proof. unfold body_byte. rewrite andb_true_iff, Z.leb_le, Z.leb_le. tauto. Qed.

Lemma tag_nonzero (b : Z) : 1 <= tag b -> b <> 0.
Proof. intros H ->. vm_compute in H. now apply H. Qed.

(** The initial value of [byte] is overwritten before it is used. *)
Lemma read_loop_byte (k : nat) (byte byte' bytes_read : Z) (buf : list Z) (w : world) :
  read_loop k byte bytes_read buf w = read_loop k byte' bytes_read buf w.
Proof.
  destruct k; [reflexivity|]. cbn [read_loop]. io_unfold.
  destruct (pending w); reflexivity.
Qed.

(** One turn of the loop on a byte with tag 1..13. *)
Lemma read_loop_body (k : nat) (byte bytes_read b : Z) (buf inp : list Z)
  (out : string) :
  body_byte b = true ->
  read_loop (S k) byte bytes_read buf (World (b :: inp) out) =
  read_loop k b (bytes_read + 1) (store buf (tag b - 1) (nibble b))
    (World inp out).
Proof.
  intros Hb. apply body_byte_tag in Hb.
  cbn [read_loop]. io_unfold. cbn [Z.leb Z.compare].
  destruct (Z.eqb_spec b 0) as [H0|_]; [now apply tag_nonzero in H0; [|lia]|].
  fold (tag b) (nibble b).
  destruct (Z.eqb_spec (tag b) 0); [lia|].
  destruct (Z.eqb_spec (tag b) 15); [lia|].
  destruct (Z.eqb_spec (tag b) 14); [lia|].
  reflexivity.
Qed.

(** The loop over a run of bytes with tags 1..13. *)
Lemma read_loop_run (l : list Z) (k : nat) (byte bytes_read : Z)
  (buf inp : list Z) (out : string) :
  Forall (fun b => body_byte b = true) l ->
  read_loop (length l + k) byte bytes_read buf (World (l ++ inp) out) =
  read_loop k byte (bytes_read + Z.of_nat (length l)) (receive l buf)
    (World inp out).
Proof.
  intros Hl. revert byte bytes_read buf.
  induction Hl as [|b l Hb Hl IH]; intros byte bytes_read buf.
  - cbn. now rewrite Z.add_0_r.
  - cbn [length Nat.add app]. rewrite read_loop_body by assumption.
    rewrite (read_loop_byte _ b byte), IH. cbn [receive foldl].
    f_equal. lia.
Qed.

(** The terminal byte (tag 14) ends the attempt. *)
Lemma read_loop_terminal (k : nat) (byte bytes_read e : Z) (buf inp : list Z)
  (out : string) :
  tag e = 14 ->
  read_loop (S k) byte bytes_read buf (World (e :: inp) out) =
  if bytes_read + 1 <? 13 then
    (Ret (-1, store buf 13 (nibble e)),
     World inp (out +:+ ("Only read " +:+ fmt_d (bytes_read + 1)
                          +:+ " bytes of packet." +:+ nl)))
  else (Ret (0, store buf 13 (nibble e)), World inp out).
Proof.
  intros He. cbn [read_loop]. io_unfold. cbn [Z.leb Z.compare].
  destruct (Z.eqb_spec e 0) as [H0|_]; [now apply tag_nonzero in H0; [|lia]|].
  fold (tag e) (nibble e). rewrite He. cbn [Z.eqb orb Z.sub Z.add Z.opp Z.pos_sub Pos.pred_double].
  destruct (bytes_read + 1 <? 13); reflexivity.
Qed.

(** A zero byte ends the attempt. *)
Lemma read_loop_zero (k : nat) (byte bytes_read : Z) (buf inp : list Z)
  (out : string) :
  read_loop (S k) byte bytes_read buf (World (0 :: inp) out) =
  (Ret (-1, buf), World inp (out +:+ ("Meter ON." +:+ nl))).
Proof. reflexivity. Qed.

Lemma valid_byte_tag (b : Z) : valid_byte b = true <-> 1 <= tag b <= 14.
Proof. unfold valid_byte. rewrite andb_true_iff, Z.leb_le, Z.leb_le. tauto. Qed.

Lemma body_byte_valid (b : Z) : body_byte b = true -> valid_byte b = true.
Proof. rewrite body_byte_tag, valid_byte_tag. lia. Qed.

Lemma terminal_valid (e : Z) : tag e = 14 -> valid_byte e = true.
Proof. rewrite valid_byte_tag. lia. Qed.

Lemma receive_app (l1 l2 buf : list Z) :
  receive (l1 ++ l2) buf = receive l2 (receive l1 buf).
Proof. apply foldl_app. Qed.

Lemma length_receive (l buf : list Z) : length (receive l buf) = length buf.
Proof.
  revert buf; induction l as [|b l IH]; intros buf; [reflexivity|].
  cbn [receive foldl]. fold (receive l (store buf (tag b - 1) (nibble b))).
  now rewrite IH, length_store.
Qed.

(** Cells past the 14th are never written. *)
Lemma drop_receive (l buf : list Z) :
  Forall (fun b => valid_byte b = true) l ->
  drop 14 (receive l buf) = drop 14 buf.
Proof.
  intros Hl; revert buf. induction Hl as [|b l Hb Hl IH]; intros buf;
    [reflexivity|].
  cbn [receive foldl]. fold (receive l (store buf (tag b - 1) (nibble b))).
  rewrite IH. unfold store. apply drop_insert_lt.
  apply valid_byte_tag in Hb. lia.
Qed.

(** A cell whose tag does not occur keeps its value. *)
Lemma load_receive_other (l buf : list Z) (j : Z) :
  Forall (fun b => valid_byte b = true) l -> 0 <= j ->
  (forall b, b ∈ l -> tag b <> j + 1) ->
  load (receive l buf) j = load buf j.
Proof.
  intros Hl Hj; revert buf. induction Hl as [|b l Hb Hl IH]; intros buf Hno;
    [reflexivity|].
  cbn [receive foldl]. fold (receive l (store buf (tag b - 1) (nibble b))).
  rewrite IH by (intros b' Hb'; apply Hno; now right).
  apply valid_byte_tag in Hb.
  apply load_store_ne; try lia.
  specialize (Hno b ltac:(left)). lia.
Qed.

(** A cell holds the nibble of the last byte received with its tag. *)
Lemma load_receive_last (pre post buf : list Z) (b : Z) :
  Forall (fun b => valid_byte b = true) (pre ++ b :: post) ->
  (forall b', b' ∈ post -> tag b' <> tag b) ->
  (Z.to_nat (tag b - 1) < length buf)%nat ->
  load (receive (pre ++ b :: post) buf) (tag b - 1) = nibble b.
Proof.
  intros Hall Hpost Hlen.
  apply Forall_app in Hall as [_ Hall].
  apply Forall_cons in Hall as [Hb Hposts].
  rewrite receive_app. cbn [receive foldl].
  fold (receive post (store (receive pre buf) (tag b - 1) (nibble b))).
  apply valid_byte_tag in Hb.
  rewrite load_receive_other; [| assumption | lia |].
  - apply load_store_eq. now rewrite length_receive.
  - intros b' Hb'. specialize (Hpost b' Hb'). lia.
Qed.

(** The first loop of [read_packet] zeroes cells 0..13. *)
Lemma clear_loop_zero (buf : list Z) :
  (14 <= length buf)%nat ->
  clear_loop 14 0 buf = replicate 14 0 ++ drop 14 buf.
Proof.
  intros Hlen.
  do 14 (destruct buf as [|? buf]; [cbn [length] in Hlen; lia|]).
  reflexivity.
Qed.

Lemma load_clear_loop (buf : list Z) (j : Z) :
  (14 <= length buf)%nat -> 0 <= j < 14 -> load (clear_loop 14 0 buf) j = 0.
Proof.
  intros Hlen Hj. rewrite clear_loop_zero by assumption.
  by_cases_below 14%nat j ltac:(reflexivity).
Qed.

Lemma length_clear_loop (buf : list Z) :
  (14 <= length buf)%nat -> length (clear_loop 14 0 buf) = length buf.
Proof.
  intros Hlen. rewrite clear_loop_zero by assumption.
  rewrite length_app, length_replicate, length_drop. lia.
Qed.

(** [read_packet] does not depend on what the previous attempt left in
    cells 0..13. *)
Lemma clear_loop_receive (l buf : list Z) :
  (14 <= length buf)%nat ->
  Forall (fun b => valid_byte b = true) l ->
  clear_loop 14 0 (receive l (clear_loop 14 0 buf)) = clear_loop 14 0 buf.
Proof.
  intros Hlen Hl.
  rewrite (clear_loop_zero (receive _ _))
    by (now rewrite length_receive, length_clear_loop).
  rewrite drop_receive by assumption.
  rewrite (clear_loop_zero buf) at 1 by assumption.
  rewrite drop_app_length' by (symmetry; apply length_replicate).
  symmetry. now apply clear_loop_zero.
Qed.

(** A run of bytes with tags 1..13, at most 14 of them, then a byte with
    tag 14: the attempt ends there, well or badly by the count of bytes. *)
Lemma read_packet_terminal (pre : list Z) (e : Z) (rest buf : list Z)
  (out : string) :
  Forall (fun b => body_byte b = true) pre -> tag e = 14 ->
  (length pre <= 14)%nat ->
  read_packet buf (World (pre ++ e :: rest) out) =
  let frame := receive (pre ++ [e]) (clear_loop 14 0 buf) in
  let bytes_read := Z.of_nat (length pre) + 1 in
  if bytes_read <? 13 then
    (Ret (-1, frame),
     World rest (out +:+ ("Only read " +:+ fmt_d bytes_read
                           +:+ " bytes of packet." +:+ nl)))
  else (Ret (0, frame), World rest out).
Proof.
  intros Hpre He Hlen. unfold read_packet.
  replace 15%nat with (length pre + S (14 - length pre))%nat by lia.
  rewrite read_loop_run by assumption.
  rewrite read_loop_terminal by assumption.
  rewrite receive_app. cbn [receive foldl]. rewrite He.
  change (14 - 1) with 13. rewrite Z.add_0_l. reflexivity.
Qed.

(** A run of bytes with tags 1..13, at most 14 of them, then a zero byte. *)
Lemma read_packet_zero (pre rest buf : list Z) (out : string) :
  Forall (fun b => body_byte b = true) pre -> (length pre <= 14)%nat ->
  read_packet buf (World (pre ++ 0 :: rest) out) =
  (Ret (-1, receive pre (clear_loop 14 0 buf)),
   World rest (out +:+ ("Meter ON." +:+ nl))).
Proof.
  intros Hpre Hlen. unfold read_packet.
  replace 15%nat with (length pre + S (14 - length pre))%nat by lia.
  rewrite read_loop_run by assumption.
  apply read_loop_zero.
Qed.

(** Fifteen bytes with tags 1..13. *)
Lemma read_packet_too_many (pre rest buf : list Z) (out : string) :
  Forall (fun b => body_byte b = true) pre -> length pre = 15%nat ->
  read_packet buf (World (pre ++ rest) out) =
  (Ret (-1, receive pre (clear_loop 14 0 buf)),
   World rest (out +:+ ("Read too many bytes." +:+ nl))).
Proof.
  intros Hpre Hlen. unfold read_packet.
  replace 15%nat with (length pre + 0)%nat by lia.
  rewrite read_loop_run by assumption.
  reflexivity.
Qed.

(** C1 (amended): 13 or 14 bytes with tags in 1..14, of which the last and
    only the last has tag 14, make [read_packet] return 0 having read exactly
    those bytes and printed nothing; afterwards [frame[tag-1] == byte & 0xF]
    for every byte that was not followed by a byte of the same tag (so for
    every byte when no tag came twice), and a cell whose tag did not come
    is 0. *)
Theorem read_packet_complete (pre : list Z) (e : Z) (rest buf : list Z)
  (out : string) :
  (14 <= length buf)%nat ->
  Forall (fun b => body_byte b = true) pre -> tag e = 14 ->
  (length pre = 12 \/ length pre = 13)%nat ->
  let frame := receive (pre ++ [e]) (clear_loop 14 0 buf) in
  read_packet buf (World (pre ++ e :: rest) out)
    = (Ret (0, frame), World rest out) /\
  (forall (i : nat) b, (pre ++ [e]) !! i = Some b ->
     (forall (j : nat) b', (i < j)%nat -> (pre ++ [e]) !! j = Some b' ->
        tag b' <> tag b) ->
     load frame (tag b - 1) = nibble b) /\
  (NoDup (map tag (pre ++ [e])) ->
   forall b, b ∈ pre ++ [e] -> load frame (tag b - 1) = nibble b) /\
  (forall j, 0 <= j < 14 -> (forall b, b ∈ pre ++ [e] -> tag b <> j + 1) ->
     load frame j = 0).
Proof.
  intros Hbuf Hpre He Hlen frame.
  assert (Hvalid : Forall (fun b => valid_byte b = true) (pre ++ [e])).
  { apply Forall_app; split.
    - eapply Forall_impl; [exact Hpre | intros b; apply body_byte_valid].
    - repeat constructor. now apply terminal_valid. }
  assert (Hlast : forall (i : nat) b, (pre ++ [e]) !! i = Some b ->
     (forall (j : nat) b', (i < j)%nat -> (pre ++ [e]) !! j = Some b' ->
        tag b' <> tag b) ->
     load frame (tag b - 1) = nibble b).
  { intros i b Hi Hlater. subst frame.
    pose proof (take_drop_middle _ _ _ Hi) as Hsplit.
    rewrite <- Hsplit. apply load_receive_last.
    - now rewrite Hsplit.
    - intros b' Hb'. apply list_elem_of_lookup in Hb' as [j Hj].
      rewrite lookup_drop in Hj. apply (Hlater (S i + j)%nat); [lia | exact Hj].
    - rewrite length_clear_loop by assumption.
      assert (Hb : valid_byte b = true).
      { rewrite Forall_forall in Hvalid. apply Hvalid.
        eapply list_elem_of_lookup_2; exact Hi. }
      apply valid_byte_tag in Hb. lia. }
  split; [|split; [exact Hlast|split]].
  - rewrite read_packet_terminal by (try assumption; lia).
    cbv zeta. fold frame.
    replace (Z.of_nat (length pre) + 1 <? 13) with false
      by (symmetry; apply Z.ltb_ge; lia).
    reflexivity.
  - intros Hnodup b Hb. apply list_elem_of_lookup in Hb as [i Hi].
    apply (Hlast i b Hi). intros j b' Hij Hj Htag.
    assert (Hti : map tag (pre ++ [e]) !! i = Some (tag b))
      by (now rewrite list_lookup_fmap, Hi).
    assert (Htj : map tag (pre ++ [e]) !! j = Some (tag b))
      by (now rewrite list_lookup_fmap, Hj, <- Htag).
    pose proof (NoDup_lookup _ _ _ _ Hnodup Hti Htj). lia.
  - intros j Hj Hno. subst frame.
    rewrite load_receive_other by (try assumption; lia).
    now apply load_clear_loop.
Qed.

Lemma read_packet_complete_witness :
  read_packet fresh_buf (World example_packet "") =
  (Ret (0, [0; 7; 13; 2; 7; 9; 5; 0; 5; 2; 0; 4; 0; 8; 0]), World [] "").
Proof.
  refine (proj1 (read_packet_complete
    [0x27; 0x3D; 0x42; 0x57; 0x69; 0x75; 0x80; 0x95; 0xA2; 0xB0; 0xC4; 0xD0]
    0xE8 [] fresh_buf "" _ _ _ _)).
  - cbn. lia.
  - repeat constructor.
  - reflexivity.
  - left. reflexivity.
Defined.

(** C1, counterexamples: with a tag received twice the frame keeps the later
    nibble only, and a byte of tag 14 that comes first ends the attempt as a
    short frame, although both inputs have 14 valid bytes, the last of tag
    14, and 13 distinct tags. *)
Lemma read_packet_complete_counterexample :
  ~ complete_frame_claim repeated_tag_packet /\
  ~ complete_frame_claim early_terminal_packet.
Proof.
  split; intros Hclaim.
  - destruct Hclaim as (frame & Hread & Hcells).
    + right; reflexivity.
    + repeat constructor.
    + reflexivity.
    + vm_compute. lia.
    + vm_compute in Hread. injection Hread as <-.
      specialize (Hcells 0x21 ltac:(left)). vm_compute in Hcells.
      discriminate Hcells.
  - destruct Hclaim as (frame & Hread & _).
    + right; reflexivity.
    + repeat constructor.
    + reflexivity.
    + vm_compute. lia.
    + vm_compute in Hread. discriminate Hread.
Qed.

(** ** What a successful attempt has read *)

Lemma read_loop_eof (k : nat) (byte bytes_read : Z) (buf : list Z) (out : string) :
  read_loop (S k) byte bytes_read buf (World [] out) =
  (Exit 0, World [] (out +:+ ("Read EOF" +:+ nl))).
Proof. reflexivity. Qed.

(** One turn of the loop, on any byte. *)
Lemma read_loop_step (k : nat) (byte bytes_read b : Z) (buf inp : list Z)
  (out : string) :
  read_loop (S k) byte bytes_read buf (World (b :: inp) out) =
  if b =? 0 then
    (Ret (-1, buf), World inp (out +:+ ("Meter ON." +:+ nl)))
  else if (tag b =? 0) || (tag b =? 15) then
    (Ret (-1, buf),
     World inp (out +:+ ("Read invalid byte 0x" +:+ fmt_02X b +:+ nl)))
  else if tag b =? 14 then
    if bytes_read + 1 <? 13 then
      (Ret (-1, store buf (tag b - 1) (nibble b)),
       World inp (out +:+ ("Only read " +:+ fmt_d (bytes_read + 1)
                            +:+ " bytes of packet." +:+ nl)))
    else (Ret (0, store buf (tag b - 1) (nibble b)), World inp out)
  else
    read_loop k b (bytes_read + 1) (store buf (tag b - 1) (nibble b))
      (World inp out).
Proof.
  cbn [read_loop]. io_unfold. cbn [Z.leb Z.compare].
  fold (tag b) (nibble b).
  destruct (b =? 0); [reflexivity|].
  destruct ((tag b =? 0) || (tag b =? 15)); [reflexivity|].
  destruct (tag b =? 14); [|reflexivity].
  destruct (bytes_read + 1 <? 13); reflexivity.
Qed.

Lemma read_loop_success (k : nat) (byte bytes_read : Z) (buf : list Z)
  (w w' : world) (frame : list Z) :
  read_loop k byte bytes_read buf w = (Ret (0, frame), w') ->
  exists pre e,
    pending w = pre ++ e :: pending w' /\
    Forall (fun b => body_byte b = true) pre /\ tag e = 14 /\
    (length pre < k)%nat /\
    13 <= bytes_read + Z.of_nat (length pre) + 1 /\
    stdout w' = stdout w /\
    frame = receive (pre ++ [e]) buf.
Proof.
  revert byte bytes_read buf w.
  induction k as [|k IH]; intros byte bytes_read buf [inp out] Hrun.
  - discriminate Hrun.
  - destruct inp as [|b inp]; [discriminate Hrun|].
    rewrite read_loop_step in Hrun.
    destruct (b =? 0); [discriminate Hrun|].
    destruct (Z.eqb_spec (tag b) 0) as [|Hn0]; [discriminate Hrun|].
    destruct (Z.eqb_spec (tag b) 15) as [|Hn15]; [discriminate Hrun|].
    cbn [orb] in Hrun.
    destruct (Z.eqb_spec (tag b) 14) as [H14|Hn14].
    + destruct (Z.ltb_spec (bytes_read + 1) 13) as [|Hge];
        [discriminate Hrun|].
      injection Hrun as <- <-.
      exists [], b. cbn [pending stdout app length].
      repeat split; try assumption; try lia. constructor.
    + apply IH in Hrun as (pre & e & Hin & Hpre & He & Hlen & Hcnt & Hout & Hfr).
      cbn [pending stdout] in Hin, Hout.
      exists (b :: pre), e. cbn [pending stdout app length].
      repeat split; try assumption; try lia.
      * now rewrite Hin.
      * constructor; [|assumption]. apply body_byte_tag.
        assert (0 <= tag b < 16).
        { unfold tag. change 15 with (Z.ones 4). rewrite Z.land_ones by lia.
          apply Z.mod_pos_bound. lia. }
        lia.
Qed.

(** C5 (amended): when [read_packet] returns 0 it has read 13 to 15 bytes,
    all with tags in 1..14, the last and only the last of tag 14 (the count
    is of bytes, whatever their tags); and a byte of tag 14 that comes as one
    of the first 12 bytes of the attempt makes it print "Only read n bytes
    of packet." and return -1. *)
Theorem read_packet_success_count (buf : list Z) (w : world) :
  (forall frame w',
     read_packet buf w = (Ret (0, frame), w') ->
     exists pre e,
       pending w = pre ++ e :: pending w' /\
       Forall (fun b => body_byte b = true) pre /\ tag e = 14 /\
       (12 <= length pre <= 14)%nat /\
       stdout w' = stdout w /\
       frame = receive (pre ++ [e]) (clear_loop 14 0 buf)) /\
  (forall pre e rest,
     pending w = pre ++ e :: rest ->
     Forall (fun b => body_byte b = true) pre -> tag e = 14 ->
     (length pre < 12)%nat ->
     read_packet buf w =
     (Ret (-1, receive (pre ++ [e]) (clear_loop 14 0 buf)),
      World rest (stdout w +:+ ("Only read "
                                +:+ fmt_d (Z.of_nat (length pre) + 1)
                                +:+ " bytes of packet." +:+ nl)))).
Proof.
  split.
  - intros frame w' Hrun. unfold read_packet in Hrun.
    apply read_loop_success in Hrun
      as (pre & e & Hin & Hpre & He & Hlen & Hcnt & Hout & Hfr).
    exists pre, e. repeat split; try assumption; lia.
  - intros pre e rest Hin Hpre He Hlen. destruct w as [inp out].
    cbn [pending stdout] in *. subst inp.
    rewrite read_packet_terminal by (try assumption; lia).
    cbv zeta.
    replace (Z.of_nat (length pre) + 1 <? 13) with true
      by (symmetry; apply Z.ltb_lt; lia).
    reflexivity.
Qed.

Lemma read_packet_success_count_witness :
  (exists pre e,
     example_packet = pre ++ e :: [] /\
     Forall (fun b => body_byte b = true) pre /\ tag e = 14 /\
     (12 <= length pre <= 14)%nat /\
     "" = "" /\
     [0; 7; 13; 2; 7; 9; 5; 0; 5; 2; 0; 4; 0; 8; 0]
       = receive (pre ++ [e]) (clear_loop 14 0 fresh_buf)) /\
  read_packet fresh_buf (World [0x27; 0x3D; 0xE8; 0x42] "") =
  (Ret (-1, [0; 7; 13; 0; 0; 0; 0; 0; 0; 0; 0; 0; 0; 8; 0]),
   World [0x42] ("Only read 3 bytes of packet." +:+ nl)).
Proof.
  split.
  - apply (proj1 (read_packet_success_count fresh_buf (World example_packet ""))
             _ (World [] "")).
    reflexivity.
  - apply (proj2 (read_packet_success_count fresh_buf
                    (World [0x27; 0x3D; 0xE8; 0x42] ""))
             [0x27; 0x3D] 0xE8 [0x42]).
    + reflexivity.
    + repeat constructor.
    + reflexivity.
    + cbn. lia.
Defined.

(** C5, counterexample: twelve bytes of tag 2 and one byte of tag 14 make a
    complete frame, fed by two distinct tags. *)
Lemma read_packet_success_count_counterexample :
  ~ populated_claim two_tag_packet.
Proof.
  intros Hclaim.
  specialize (Hclaim [0; 1; 0; 0; 0; 0; 0; 0; 0; 0; 0; 0; 0; 1; 0] eq_refl).
  vm_compute in Hclaim. lia.
Qed.

(** ** The power-on byte *)

Lemma main_body_discard (buf : list Z) (w w' : world) (r : Z) (frame : list Z) :
  read_packet buf w = (Ret (r, frame), w') -> r <> 0 ->
  main_body buf w = (Ret frame, w').
Proof.
  intros Hread Hr. unfold main_body. unfold mbind at 1, io_bind.
  rewrite Hread. destruct (Z.eqb_spec r 0); [contradiction | reflexivity].
Qed.

(** C8: a zero byte that comes while an attempt is running (after at most
    14 bytes with tags 1..13) makes [read_packet] print "Meter ON." and
    return -1 with every later byte still pending; [main] decodes nothing of
    the frame, and the next attempt starts from a zeroed frame and behaves as
    if the aborted one had not happened. *)
Theorem read_packet_power_on (pre rest buf : list Z) (out : string) :
  (14 <= length buf)%nat ->
  Forall (fun b => body_byte b = true) pre ->
  (length pre <= 14)%nat ->
  let frame := receive pre (clear_loop 14 0 buf) in
  let w' := World rest (out +:+ ("Meter ON." +:+ nl)) in
  read_packet buf (World (pre ++ 0 :: rest) out) = (Ret (-1, frame), w') /\
  main_body buf (World (pre ++ 0 :: rest) out) = (Ret frame, w') /\
  (forall w, read_packet frame w = read_packet buf w) /\
  (forall j, 0 <= j < 14 -> load (clear_loop 14 0 frame) j = 0).
Proof.
  intros Hbuf Hpre Hlen frame w'.
  assert (Hread : read_packet buf (World (pre ++ 0 :: rest) out)
                  = (Ret (-1, frame), w'))
    by (now apply read_packet_zero).
  assert (Hvalid : Forall (fun b => valid_byte b = true) pre)
    by (eapply Forall_impl; [exact Hpre | intros b; apply body_byte_valid]).
  split; [exact Hread | split; [|split]].
  - eapply main_body_discard; [exact Hread | lia].
  - intros w. unfold read_packet. subst frame.
    now rewrite clear_loop_receive.
  - intros j Hj. apply load_clear_loop; [|assumption].
    subst frame. now rewrite length_receive, length_clear_loop.
Qed.

Lemma read_packet_power_on_witness :
  read_packet fresh_buf (World [0x27; 0x3D; 0x00; 0x42] "")
    = (Ret (-1, [0; 7; 13; 0; 0; 0; 0; 0; 0; 0; 0; 0; 0; 0; 0]),
       World [0x42] ("Meter ON." +:+ nl)) /\
  read_packet [0; 7; 13; 0; 0; 0; 0; 0; 0; 0; 0; 0; 0; 0; 0]
    (World example_packet "")
    = read_packet fresh_buf (World example_packet "").
Proof.
  pose proof (read_packet_power_on [0x27; 0x3D] [0x42] fresh_buf ""
                ltac:(cbn; lia) ltac:(repeat constructor) ltac:(cbn; lia))
    as (H1 & _ & H3 & _).
  split; [exact H1 | exact (H3 (World example_packet ""))].
Defined.

(** ** The limit of 15 bytes *)

Lemma read_loop_consumed (k : nat) (byte bytes_read : Z) (buf : list Z)
  (w w' : world) (r : outcome (Z * list Z)) :
  read_loop k byte bytes_read buf w = (r, w') ->
  exists consumed,
    pending w = consumed ++ pending w' /\ (length consumed <= k)%nat.
Proof.
  revert byte bytes_read buf w.
  induction k as [|k IH]; intros byte bytes_read buf [inp out] Hrun.
  - injection Hrun as _ <-. exists []. split; [reflexivity | cbn; lia].
  - destruct inp as [|b inp].
    { injection Hrun as _ <-. exists []. split; [reflexivity | cbn; lia]. }
    rewrite read_loop_step in Hrun.
    assert (Hone : forall r0 out0, (r0, World inp out0) = (r, w') ->
              exists consumed, pending (World (b :: inp) out)
                               = consumed ++ pending w' /\
                               (length consumed <= S k)%nat).
    { intros r0 out0 Heq. injection Heq as _ <-. exists [b].
      split; [reflexivity | cbn; lia]. }
    destruct (b =? 0); [now apply (Hone _ _ Hrun)|].
    destruct ((tag b =? 0) || (tag b =? 15)); [now apply (Hone _ _ Hrun)|].
    destruct (tag b =? 14).
    + destruct (bytes_read + 1 <? 13); now apply (Hone _ _ Hrun).
    + apply IH in Hrun as (consumed & Hin & Hlen). cbn [pending] in Hin.
      exists (b :: consumed). split; [cbn; now rewrite Hin | cbn; lia].
Qed.

(** C9: a call of [read_packet] reads at most 15 bytes; when the pending
    bytes start with 15 or more bytes that carry tags 1..13 (no terminal
    byte among them), it reads 15 of them, prints "Read too many bytes.",
    returns -1, and leaves the 16th and later bytes pending. *)
Theorem read_packet_too_long (buf : list Z) (w : world) :
  (forall r w', read_packet buf w = (r, w') ->
     exists consumed,
       pending w = consumed ++ pending w' /\ (length consumed <= 15)%nat) /\
  (forall l rest,
     pending w = l ++ rest ->
     Forall (fun b => body_byte b = true) l -> (15 <= length l)%nat ->
     read_packet buf w =
     (Ret (-1, receive (take 15 l) (clear_loop 14 0 buf)),
      World (drop 15 l ++ rest) (stdout w +:+ ("Read too many bytes." +:+ nl)))).
Proof.
  split.
  - intros r w' Hrun. unfold read_packet in Hrun.
    eapply read_loop_consumed; exact Hrun.
  - intros l rest Hin Hl Hlen. destruct w as [inp out].
    cbn [pending stdout] in *. subst inp.
    rewrite <- (take_drop 15 l) at 1. rewrite <- app_assoc.
    apply read_packet_too_many.
    + now apply Forall_take.
    + rewrite length_take. lia.
Qed.

Lemma read_packet_too_long_witness :
  (exists consumed,
     example_packet = consumed ++ [] /\ (length consumed <= 15)%nat) /\
  read_packet fresh_buf (World (replicate 16 0x21 ++ [0xE1]) "") =
  (Ret (-1, [0; 1; 0; 0; 0; 0; 0; 0; 0; 0; 0; 0; 0; 0; 0]),
   World [0x21; 0xE1] ("Read too many bytes." +:+ nl)).
Proof.
  split.
  - apply (proj1 (read_packet_too_long fresh_buf (World example_packet ""))
             (Ret (0, example_frame)) (World [] "")).
    reflexivity.
  - apply (proj2 (read_packet_too_long fresh_buf
                    (World (replicate 16 0x21 ++ [0xE1]) ""))
             (replicate 16 0x21) [0xE1]).
    + reflexivity.
    + repeat constructor.
    + cbn. lia.
Defined.

(** ** The display *)

Lemma string_app_assoc (a b c : string) : (a +:+ b) +:+ c = a +:+ (b +:+ c).
Proof.
  induction a as [|ch a IH]; [reflexivity|].
  change (String ch ((a +:+ b) +:+ c) = String ch (a +:+ (b +:+ c))).
  now rewrite IH.
Qed.

Lemma string_app_nil_r (a : string) : a +:+ "" = a.
Proof.
  induction a as [|ch a IH]; [reflexivity|].
  change (String ch (a +:+ "") = String ch a). now rewrite IH.
Qed.

Lemma string_app_nil_l (a : string) : "" +:+ a = a.
Proof. reflexivity. Qed.

(** The test [buf[n] & 0x8] is the test of bit 3. *)
Lemma land_8_test (x : Z) : negb (Z.land x 8 =? 0) = Z.testbit x 3.
Proof. apply (land_bit_test x 3). lia. Qed.

(** One turn of the loop on a pair that decodes to a symbol. *)
Lemma print_display_loop_digit (k : nat) (n : Z) (buf inp : list Z) (out : string) :
  digit_at buf n <> -1 ->
  print_display_loop (S k) n buf (World inp out) =
  print_display_loop k (n + 2) buf (World inp (out +:+ pair_text buf n)).
Proof.
  intros Hval. unfold pair_text, mark_text, digit_text.
  cbn [print_display_loop]. rewrite land_8_test. fold (digit_at buf n).
  destruct (Z.eqb_spec (digit_at buf n) (-1)) as [|_]; [contradiction|].
  io_unfold.
  destruct (Z.testbit (load buf n) 3), (n =? 1), (digit_at buf n <? 10),
    (digit_at buf n =? 10), (digit_at buf n =? 11), (digit_at buf n >? 11);
    cbn [pending stdout];
    rewrite ?string_app_nil_l, ?string_app_nil_r, ?string_app_assoc;
    reflexivity.
Qed.

(** One turn of the loop on a pair that is no known segment pattern. *)
Lemma print_display_loop_unknown (k : nat) (n : Z) (buf inp : list Z)
  (out : string) :
  digit_at buf n = -1 ->
  print_display_loop (S k) n buf (World inp out) =
  (Ret (-1),
   World inp (out +:+ (mark_text n (load buf n) +:+ unknown_text buf n))).
Proof.
  intros Hval. unfold mark_text, unknown_text.
  cbn [print_display_loop]. rewrite land_8_test. fold (digit_at buf n).
  rewrite Hval. cbn [Z.eqb Pos.eqb]. io_unfold.
  destruct (Z.testbit (load buf n) 3), (n =? 1);
    cbn [pending stdout];
    rewrite ?string_app_nil_l, ?string_app_nil_r, ?string_app_assoc;
    reflexivity.
Qed.

(** The loop over [j] pairs that decode to a symbol. *)
Lemma print_display_loop_run (j k : nat) (n : Z) (buf inp : list Z)
  (out : string) :
  digits_valid j n buf = true ->
  print_display_loop (j + k) n buf (World inp out) =
  print_display_loop k (n + 2 * Z.of_nat j) buf
    (World inp (out +:+ display_prefix j n buf)).
Proof.
  revert n out; induction j as [|j IH]; intros n out Hvalid.
  - cbn [display_prefix Nat.add]. rewrite string_app_nil_r. f_equal. lia.
  - cbn [digits_valid] in Hvalid. apply andb_true_iff in Hvalid as [Hd Hrest].
    apply negb_true_iff, Z.eqb_neq in Hd.
    cbn [Nat.add]. rewrite print_display_loop_digit by assumption.
    rewrite IH by assumption. cbn [display_prefix].
    rewrite string_app_assoc. f_equal. lia.
Qed.

(** Bit 3 of the first nibble is masked off before the table lookup. *)
Lemma land_7_flip_bit3 (x : Z) : Z.land (Z.lxor x 8) 7 = Z.land x 7.
Proof.
  apply Z.bits_inj'; intros m Hm.
  rewrite !Z.land_spec, Z.lxor_spec.
  change 8 with (2 ^ 3). change 7 with (Z.ones 3).
  rewrite Z.pow2_bits_eqb, Z.testbit_ones_nonneg by lia.
  destruct (Z.eqb_spec 3 m) as [<-|_]; [|now rewrite xorb_false_r].
  cbn. now rewrite !andb_false_r.
Qed.

(** C6, counterexample: in the example frame bit 3 is set in the third pair
    only; the display reads 04.71, with the point before the third digit,
    and not 047.1 as it would with the point after that digit. *)
Lemma print_display_number_marks_counterexample :
  map (fun n => Z.testbit (load example_frame n) 3) [1; 3; 5; 7]
    = [false; false; true; false] /\
  claimed_display example_frame = "047.1" /\
  print_display_number example_frame (World [] "")
    <> (Ret 0, World [] (claimed_display example_frame)).
Proof.
  split; [reflexivity | split; [reflexivity|]].
  vm_compute. discriminate.
Qed.

(** ** Undecodable digits *)

Lemma display_prefix_agree (j : nat) (n : Z) (buf buf' : list Z) :
  (forall i, n <= i < n + 2 * Z.of_nat j -> load buf' i = load buf i) ->
  display_prefix j n buf' = display_prefix j n buf /\
  digits_valid j n buf' = digits_valid j n buf.
Proof.
  revert n; induction j as [|j IH]; intros n Hagree; [now split|].
  destruct (IH (n + 2)) as [Hp Hv]; [intros i Hi; apply Hagree; lia|].
  cbn [display_prefix digits_valid]. unfold pair_text, digit_at.
  rewrite Hp, Hv, !Hagree by lia. now split.
Qed.

Lemma print_display_number_first_unknown (buf inp : list Z) (out : string)
  (j : nat) :
  (j < 4)%nat -> digits_valid j 1 buf = true ->
  digit_at buf (1 + 2 * Z.of_nat j) = -1 ->
  print_display_number buf (World inp out) =
  (Ret (-1),
   World inp (out +:+ (display_prefix j 1 buf +:+
                       mark_text (1 + 2 * Z.of_nat j)
                         (load buf (1 + 2 * Z.of_nat j)) +:+
                       unknown_text buf (1 + 2 * Z.of_nat j)))).
Proof.
  intros Hj Hvalid Hbad. unfold print_display_number.
  replace 4%nat with (j + S (3 - j))%nat by lia.
  rewrite print_display_loop_run by assumption.
  rewrite print_display_loop_unknown by assumption.
  now rewrite string_app_assoc.
Qed.

Lemma main_body_skip (buf0 buf : list Z) (w w1 w2 : world) (r : Z) :
  read_packet buf0 w = (Ret (0, buf), w1) ->
  print_display_number buf w1 = (Ret r, w2) -> r <> 0 ->
  main_body buf0 w = (Ret buf, w2).
Proof.
  intros Hread Hprint Hr. unfold main_body. unfold mbind at 1, io_bind.
  rewrite Hread. cbn [Z.eqb negb]. unfold mbind at 1, io_bind.
  rewrite Hprint. destruct (Z.eqb_spec r 0); [contradiction | reflexivity].
Qed.

(** C7 (amended): when a pair of a complete frame is no known segment
    pattern, [print_display_number] stops at the first such pair: it has
    printed the marks and digits of the pairs before it and the mark of the
    pair itself, prints "Unknown digit" with the two nibbles, and returns -1;
    the pairs after it are not looked at, and [main] goes on to the next
    packet without decoding the attributes. *)
Theorem print_display_number_unknown (buf inp : list Z) (out : string)
  (j : nat) :
  (j < 4)%nat -> digits_valid j 1 buf = true ->
  digit_at buf (1 + 2 * Z.of_nat j) = -1 ->
  let n := 1 + 2 * Z.of_nat j in
  let w' := World inp (out +:+ (display_prefix j 1 buf +:+
                                mark_text n (load buf n) +:+
                                unknown_text buf n)) in
  print_display_number buf (World inp out) = (Ret (-1), w') /\
  (forall buf' : list Z,
     (forall i, 1 <= i <= n + 1 -> load buf' i = load buf i) ->
     print_display_number buf' (World inp out) = (Ret (-1), w')) /\
  (forall buf0 w,
     read_packet buf0 w = (Ret (0, buf), World inp out) ->
     main_body buf0 w = (Ret buf, w')).
Proof.
  intros Hj Hvalid Hbad n w'.
  assert (Hprint : print_display_number buf (World inp out) = (Ret (-1), w'))
    by (now apply print_display_number_first_unknown).
  split; [exact Hprint | split].
  - intros buf' Hagree.
    destruct (display_prefix_agree j 1 buf buf') as [Hp Hv];
      [intros i Hi; apply Hagree; subst n; lia|].
    rewrite (print_display_number_first_unknown buf' inp out j);
      try assumption.
    + fold n. subst w'. unfold unknown_text.
      rewrite Hp, !Hagree by lia. reflexivity.
    + now rewrite Hv.
    + unfold digit_at in *. fold n in Hbad |- *.
      now rewrite !Hagree by lia.
  - intros buf0 w Hread. eapply main_body_skip; [exact Hread | exact Hprint | lia].
Qed.

Lemma print_display_number_unknown_witness :
  print_display_number [0; 7; 13; 10; 7; 9; 0; 0; 5; 2; 0; 4; 0; 8; 0]
    (World [] "")
    = (Ret (-1), World [] ("0.4.Unknown digit 9 0" +:+ nl)) /\
  print_display_number [0; 7; 13; 10; 7; 9; 0; 7; 15; 2; 0; 4; 0; 8; 0]
    (World [] "")
    = (Ret (-1), World [] ("0.4.Unknown digit 9 0" +:+ nl)) /\
  main_body fresh_buf
    (World [0x27; 0x3D; 0x4A; 0x57; 0x69; 0x70; 0x80; 0x95; 0xA2; 0xB0; 0xC4;
            0xD0; 0xE8] "")
    = (Ret [0; 7; 13; 10; 7; 9; 0; 0; 5; 2; 0; 4; 0; 8; 0],
       World [] ("0.4.Unknown digit 9 0" +:+ nl)).
Proof.
  pose proof (print_display_number_unknown
                [0; 7; 13; 10; 7; 9; 0; 0; 5; 2; 0; 4; 0; 8; 0] [] "" 2
                ltac:(lia) eq_refl eq_refl) as (H1 & H2 & H3).
  split; [exact H1 | split].
  - apply H2. intros i Hi. cbn in Hi.
    by_cases_below 7%nat i ltac:(reflexivity).
  - apply H3. reflexivity.
Defined.

(** C7, counterexample: two frames with the same undecodable first pair and
    different digits and decimal points after it get the same answer from
    [print_display_number], which names the first pair only. *)
Lemma print_display_number_unknown_counterexample :
  print_display_number bad_first_digit_frame (World [] "")
    = (Ret (-1), World [] ("Unknown digit 0 1" +:+ nl)) /\
  ~ partial_decode_claim bad_first_digit_frame bad_first_digit_frame'.
Proof.
  split; [reflexivity|].
  intros Hclaim. specialize (Hclaim eq_refl).
  vm_compute in Hclaim. discriminate Hclaim.
Qed.

(** * Further properties of the code *)

(** ** Every framing attempt, case by case *)

Lemma read_loop_decompose (k : nat) (byte bytes_read : Z) (buf inp : list Z)
  (out : string) :
  exists pre ending rest,
    inp = attempt_input pre ending rest /\
    attempt_ok k bytes_read pre ending /\
    read_loop k byte bytes_read buf (World inp out) =
    attempt_result bytes_read buf pre ending rest out.
Proof.
  revert byte bytes_read buf inp.
  induction k as [|k IH]; intros byte bytes_read buf inp.
  - exists [], AtLimit, inp. repeat split. constructor.
  - destruct inp as [|b inp].
    { exists [], AtEOF, []. repeat split; [constructor | cbn; lia]. }
    rewrite read_loop_step.
    destruct (Z.eqb_spec b 0) as [->|Hb0].
    { exists [], AtPowerOn, inp. repeat split; [constructor | cbn; lia]. }
    destruct (Z.eqb_spec (tag b) 0) as [Ht0|Ht0].
    { exists [], (AtInvalid b), inp.
      repeat split; try assumption; [constructor | cbn; lia | now left]. }
    destruct (Z.eqb_spec (tag b) 15) as [Ht15|Ht15].
    { exists [], (AtInvalid b), inp.
      repeat split; try assumption; [constructor | cbn; lia | now right]. }
    cbn [orb].
    destruct (Z.eqb_spec (tag b) 14) as [Ht14|Ht14].
    { destruct (Z.ltb_spec (bytes_read + 1) 13) as [Hlt|Hge].
      - exists [], (AtShort b), inp.
        repeat split; try assumption; [constructor | cbn; lia | cbn; lia |].
        cbn [attempt_result length app]. now rewrite Z.add_0_r.
      - exists [], (AtComplete b), inp.
        repeat split; try assumption; [constructor | cbn; lia | cbn; lia]. }
    destruct (IH b (bytes_read + 1) (store buf (tag b - 1) (nibble b)) inp)
      as (pre & ending & rest & -> & [Hpre Hend] & ->).
    exists (b :: pre), ending, rest.
    assert (Hbody : body_byte b = true).
    { apply body_byte_tag.
      assert (0 <= tag b < 16).
      { unfold tag. change 15 with (Z.ones 4). rewrite Z.land_ones by lia.
        apply Z.mod_pos_bound. lia. }
      lia. }
    assert (Hcount : bytes_read + 1 + Z.of_nat (length pre) + 1 =
                     bytes_read + Z.of_nat (length (b :: pre)) + 1)
      by (cbn [length]; lia).
    split; [reflexivity | split].
    + split; [now constructor|].
      destruct ending; cbn [length]; rewrite <- ?Hcount;
        intuition (try lia).
    + destruct ending; cbn [attempt_result]; rewrite <- ?Hcount; reflexivity.
Qed.

Lemma read_packet_cases (buf : list Z) (w : world) :
  exists pre ending rest,
    pending w = attempt_input pre ending rest /\
    attempt_ok 15 0 pre ending /\
    read_packet buf w =
    attempt_result 0 (clear_loop 14 0 buf) pre ending rest (stdout w).
Proof.
  destruct w as [inp out]. unfold read_packet.
  apply read_loop_decompose.
Qed.

Lemma attempt_ok_tail (k : nat) (bytes_read b : Z) (pre : list Z)
  (ending : attempt_end) :
  attempt_ok (S k) bytes_read (b :: pre) ending ->
  attempt_ok k (bytes_read + 1) pre ending.
Proof.
  intros [Hpre Hend]. apply Forall_cons in Hpre as [_ Hpre].
  split; [exact Hpre|].
  destruct ending; cbn [length] in Hend; rewrite ?Nat2Z.inj_succ in Hend;
    intuition lia.
Qed.

Lemma attempt_ok_limit (k : nat) (bytes_read b : Z) (pre : list Z)
  (ending : attempt_end) :
  attempt_ok k bytes_read (b :: pre) ending -> exists k', k = S k'.
Proof.
  intros [_ Hend]. destruct k as [|k']; [|now exists k'].
  destruct ending; cbn [length] in Hend; intuition lia.
Qed.

(** A byte that ends an attempt is no byte of the run before it. *)
Lemma attempt_head (k : nat) (bytes_read b : Z) (pre' : list Z)
  (ending ending' : attempt_end) (rest rest' : list Z) :
  attempt_ok k bytes_read [] ending ->
  attempt_ok k bytes_read (b :: pre') ending' ->
  attempt_input [] ending rest = attempt_input (b :: pre') ending' rest' ->
  False.
Proof.
  intros [_ Hend] Hok' Hin.
  destruct (attempt_ok_limit _ _ _ _ _ Hok') as [k' ->].
  destruct Hok' as [Hpre' _]. apply Forall_cons in Hpre' as [Hb _].
  apply body_byte_tag in Hb.
  assert (Htag0 : tag 0 = 0) by reflexivity.
  destruct ending; cbn [attempt_input app length] in Hin, Hend;
    try discriminate Hin; try discriminate Hend;
    injection Hin as Hhead _; subst b; intuition lia.
Qed.

Lemma attempt_unique (pre : list Z) :
  forall (k : nat) (bytes_read : Z) (pre' : list Z)
         (ending ending' : attempt_end) (rest rest' : list Z),
    attempt_ok k bytes_read pre ending ->
    attempt_ok k bytes_read pre' ending' ->
    attempt_input pre ending rest = attempt_input pre' ending' rest' ->
    pre' = pre /\ ending' = ending /\ (ending = AtEOF \/ rest' = rest).
Proof.
  induction pre as [|b pre IH];
    intros k bytes_read pre' ending ending' rest rest' Hok Hok' Hin.
  - destruct pre' as [|b' pre'];
      [|exfalso; eapply attempt_head; [exact Hok | exact Hok' | exact Hin]].
    destruct Hok as [_ Hend], Hok' as [_ Hend'].
    assert (Htag0 : tag 0 = 0) by reflexivity.
    destruct ending, ending'; cbn [attempt_input app length] in Hin, Hend, Hend';
      try discriminate Hin;
      try (injection Hin; intros; subst);
      try (cbn [app] in Hin; subst);
      try (exfalso; intuition lia);
      repeat split; auto.
  - destruct pre' as [|b' pre'];
      [exfalso; eapply attempt_head; [exact Hok' | exact Hok | symmetry; exact Hin]|].
    destruct (attempt_ok_limit _ _ _ _ _ Hok) as [k' ->].
    injection Hin as <- Htail.
    destruct (IH k' (bytes_read + 1) pre' ending ending' rest rest'
                (attempt_ok_tail _ _ _ _ _ Hok) (attempt_ok_tail _ _ _ _ _ Hok')
                Htail) as (-> & -> & Hrest).
    now repeat split.
Qed.

(** X3: every call of [read_packet] is exactly one of six cases, decided by
    the run of bytes with tags 1..13 at the head of the input and by what
    follows it: the end of the input (status 0 exit), a zero byte, a byte
    with tag 0 or 15, a byte with tag 14 before or from the 13th byte on, or
    nothing of these within 15 bytes.  The input has such a decomposition,
    the decomposition fixes the result, the message and the bytes left
    unread, and it has no other: the run and the case are unique, and so are
    the bytes left unread (at the end of the input there are none). *)
Theorem read_packet_decomposition (buf : list Z) (w : world) :
  exists pre ending rest,
    pending w = attempt_input pre ending rest /\
    attempt_ok 15 0 pre ending /\
    read_packet buf w =
    attempt_result 0 (clear_loop 14 0 buf) pre ending rest (stdout w) /\
    forall pre' ending' rest',
      pending w = attempt_input pre' ending' rest' ->
      attempt_ok 15 0 pre' ending' ->
      pre' = pre /\ ending' = ending /\ (ending = AtEOF \/ rest' = rest).
Proof.
  destruct (read_packet_cases buf w) as (pre & ending & rest & Hin & Hok & Hres).
  exists pre, ending, rest.
  split; [exact Hin | split; [exact Hok | split; [exact Hres|]]].
  intros pre' ending' rest' Hin' Hok'.
  apply (attempt_unique pre 15 0 pre' ending ending' rest rest' Hok Hok').
  congruence.
Qed.

Lemma read_packet_decomposition_witness :
  read_packet fresh_buf (World [0x27; 0x00; 0x42] "") =
  attempt_result 0 (clear_loop 14 0 fresh_buf) [0x27] AtPowerOn [0x42] "".
Proof.
  destruct (read_packet_decomposition fresh_buf (World [0x27; 0x00; 0x42] ""))
    as (pre & ending & rest & Hin & Hok & Hres & Hunique).
  destruct (Hunique [0x27] AtPowerOn [0x42] eq_refl)
    as (Hpre & Hending & Hrest).
  - split; [repeat constructor | cbn; lia].
  - subst pre ending. destruct Hrest as [Heof | Hrest]; [discriminate Heof|].
    subst rest. exact Hres.
Defined.

(** ** Bytes with tag 0 or 15, and the end of the input *)

Lemma read_packet_attempt (pre : list Z) (ending : attempt_end)
  (rest buf : list Z) (out : string) :
  attempt_ok 15 0 pre ending ->
  read_packet buf (World (attempt_input pre ending rest) out) =
  attempt_result 0 (clear_loop 14 0 buf) pre ending rest out.
Proof.
  intros [Hpre Hend]. unfold read_packet, attempt_input.
  destruct ending.
  - replace 15%nat with (length pre + S (14 - length pre))%nat by lia.
    rewrite read_loop_run by assumption. apply read_loop_eof.
  - replace 15%nat with (length pre + S (14 - length pre))%nat by lia.
    rewrite read_loop_run by assumption. apply read_loop_zero.
  - destruct Hend as (Hlen & Hb & Htag).
    replace 15%nat with (length pre + S (14 - length pre))%nat by lia.
    rewrite read_loop_run, read_loop_step by assumption.
    destruct (Z.eqb_spec b 0); [contradiction|].
    destruct Htag as [-> | ->]; reflexivity.
  - destruct Hend as (Hlen & Htag & Hcount).
    replace 15%nat with (length pre + S (14 - length pre))%nat by lia.
    rewrite read_loop_run, read_loop_terminal by assumption.
    cbn [attempt_result]. rewrite receive_app. cbn [receive foldl].
    rewrite Htag.
    replace (0 + Z.of_nat (length pre) + 1 <? 13) with true
      by (symmetry; apply Z.ltb_lt; lia).
    reflexivity.
  - destruct Hend as (Hlen & Htag & Hcount).
    replace 15%nat with (length pre + S (14 - length pre))%nat by lia.
    rewrite read_loop_run, read_loop_terminal by assumption.
    cbn [attempt_result]. rewrite receive_app. cbn [receive foldl].
    rewrite Htag.
    replace (0 + Z.of_nat (length pre) + 1 <? 13) with false
      by (symmetry; apply Z.ltb_ge; lia).
    reflexivity.
  - replace 15%nat with (length pre + 0)%nat by lia.
    rewrite read_loop_run by assumption. reflexivity.
Qed.

(** X1: a non-zero byte with tag 0 or 15 that comes while an attempt is
    running (after at most 14 bytes with tags 1..13) is read and dropped:
    [read_packet] prints "Read invalid byte 0x.." with the byte in two
    hexadecimal digits, returns -1 with the bytes after it unread, and
    [main] decodes nothing. *)
Theorem read_packet_invalid_byte (pre : list Z) (b : Z) (rest buf : list Z)
  (out : string) :
  Forall (fun b => body_byte b = true) pre -> (length pre <= 14)%nat ->
  b <> 0 -> tag b = 0 \/ tag b = 15 ->
  let frame := receive pre (clear_loop 14 0 buf) in
  let w' := World rest (out +:+ ("Read invalid byte 0x" +:+ fmt_02X b +:+ nl)) in
  read_packet buf (World (pre ++ b :: rest) out) = (Ret (-1, frame), w') /\
  main_body buf (World (pre ++ b :: rest) out) = (Ret frame, w').
Proof.
  intros Hpre Hlen Hb Htag frame w'.
  assert (Hread : read_packet buf (World (pre ++ b :: rest) out)
                  = (Ret (-1, frame), w')).
  { apply (read_packet_attempt pre (AtInvalid b) rest buf out).
    split; [assumption|]. repeat split; try assumption; lia. }
  split; [exact Hread|].
  eapply main_body_discard; [exact Hread | lia].
Qed.

Lemma read_packet_invalid_byte_witness :
  read_packet fresh_buf (World [0x27; 0x3D; 0xF1; 0x42] "")
    = (Ret (-1, [0; 7; 13; 0; 0; 0; 0; 0; 0; 0; 0; 0; 0; 0; 0]),
       World [0x42] ("Read invalid byte 0xF1" +:+ nl)) /\
  main_body fresh_buf (World [0x0A; 0x42] "")
    = (Ret fresh_buf, World [0x42] ("Read invalid byte 0x0A" +:+ nl)).
Proof.
  split.
  - refine (proj1 (read_packet_invalid_byte [0x27; 0x3D] 0xF1 [0x42]
                     fresh_buf "" _ _ _ _)).
    + repeat constructor.
    + cbn. lia.
    + lia.
    + right. reflexivity.
  - refine (proj2 (read_packet_invalid_byte [] 0x0A [0x42] fresh_buf "" _ _ _ _)).
    + constructor.
    + cbn. lia.
    + lia.
    + left. reflexivity.
Defined.

(** X2: when the input ends while an attempt is running (after at most 14
    bytes with tags 1..13, possibly none), [read_packet] prints "Read EOF"
    and the process exits with status 0: the unfinished packet is dropped
    without a message of its own, and [main] stops there. *)
Theorem read_packet_eof (pre buf : list Z) (out : string) :
  Forall (fun b => body_byte b = true) pre -> (length pre <= 14)%nat ->
  let w' := World [] (out +:+ ("Read EOF" +:+ nl)) in
  read_packet buf (World pre out) = (Exit 0, w') /\
  main_body buf (World pre out) = (Exit 0, w') /\
  forall fuel, main_loop (S fuel) buf (World pre out) = Some (0, w').
Proof.
  intros Hpre Hlen w'.
  assert (Hread : read_packet buf (World pre out) = (Exit 0, w')).
  { pose proof (read_packet_attempt pre AtEOF [] buf out) as H.
    unfold attempt_input in H. rewrite app_nil_r in H.
    apply H. split; [assumption | lia]. }
  assert (Hmain : main_body buf (World pre out) = (Exit 0, w')).
  { unfold main_body. unfold mbind at 1, io_bind. now rewrite Hread. }
  split; [exact Hread | split; [exact Hmain|]].
  intros fuel. cbn [main_loop]. now rewrite Hmain.
Qed.

Lemma read_packet_eof_witness :
  read_packet fresh_buf (World [0x27; 0x3D] "")
    = (Exit 0, World [] ("Read EOF" +:+ nl)) /\
  main_loop 1 fresh_buf (World [] "") = Some (0, World [] ("Read EOF" +:+ nl)).
Proof.
  split.
  - refine (proj1 (read_packet_eof [0x27; 0x3D] fresh_buf "" _ _)).
    + repeat constructor.
    + cbn. lia.
  - refine (proj2 (proj2 (read_packet_eof [] fresh_buf "" _ _)) 0%nat).
    + constructor.
    + cbn. lia.
Defined.

(** ** Progress *)

(** X4: a call of [read_packet] on a non-empty input reads at least one
    byte; it ends the process only with status 0 and only when it has used
    up the input, which then was fewer than 15 bytes, all with tags 1..13;
    on an empty input it always does so. *)
Theorem read_packet_progress (buf : list Z) (w w' : world)
  (r : outcome (Z * list Z)) :
  read_packet buf w = (r, w') ->
  (exists consumed,
     pending w = consumed ++ pending w' /\
     (pending w <> [] -> consumed <> [])) /\
  (forall status, r = Exit status ->
     status = 0 /\ pending w' = [] /\ (length (pending w) < 15)%nat /\
     Forall (fun b => body_byte b = true) (pending w)) /\
  (pending w = [] -> r = Exit 0).
Proof.
  intros Hrun.
  destruct (read_packet_cases buf w)
    as (pre & ending & rest & Hin & [Hpre Hend] & Hres).
  rewrite Hres in Hrun. rewrite Hin. unfold attempt_input.
  assert (Hsnoc : forall (l : list Z) x, l ++ [x] <> [])
    by (intros l x H; now apply app_eq_nil in H as [_ H]).
  assert (Hmid : forall (l l' : list Z) x, l ++ x :: l' <> [])
    by (intros l l' x H; now apply app_eq_nil in H as [_ H]).
  destruct ending; cbn [attempt_result] in Hrun;
    injection Hrun as <- <-; cbn [pending];
    (split; [|split; [intros status Hs; try discriminate Hs|]]);
    try (intros H; now apply Hmid in H).
  - exists pre. split; [reflexivity|]. now rewrite app_nil_r.
  - injection Hs as <-. rewrite app_nil_r. repeat split; assumption.
  - reflexivity.
  - exists (pre ++ [0]). rewrite <- app_assoc. split; [reflexivity|].
    intros _. apply Hsnoc.
  - exists (pre ++ [b]). rewrite <- app_assoc. split; [reflexivity|].
    intros _. apply Hsnoc.
  - exists (pre ++ [e]). rewrite <- app_assoc. split; [reflexivity|].
    intros _. apply Hsnoc.
  - exists (pre ++ [e]). rewrite <- app_assoc. split; [reflexivity|].
    intros _. apply Hsnoc.
  - exists pre. split; [reflexivity|].
    intros _ ->. cbn in Hend. discriminate Hend.
  - intros H. apply app_eq_nil in H as [-> _]. cbn in Hend.
    discriminate Hend.
Qed.

Lemma read_packet_progress_witness :
  (exists consumed,
     [0x27; 0xF1; 0x42] = consumed ++ [0x42] /\
     ([0x27; 0xF1; 0x42] <> [] -> consumed <> [])) /\
  (forall status, Exit (A := Z * list Z) 0 = Exit status ->
     status = 0 /\ @nil Z = [] /\ (length [0x27; 0x3D] < 15)%nat /\
     Forall (fun b => body_byte b = true) [0x27; 0x3D]).
Proof.
  split.
  - apply (proj1 (read_packet_progress fresh_buf
                    (World [0x27; 0xF1; 0x42] "")
                    (World [0x42] ("Read invalid byte 0xF1" +:+ nl))
                    (Ret (-1, [0; 7; 0; 0; 0; 0; 0; 0; 0; 0; 0; 0; 0; 0; 0]))
                    eq_refl)).
  - apply (proj1 (proj2 (read_packet_progress fresh_buf
                    (World [0x27; 0x3D] "")
                    (World [] ("Read EOF" +:+ nl))
                    (Exit 0) eq_refl))).
Defined.

(** ** The buffer that a call leaves *)

Lemma nibble_range (b : Z) : 0 <= nibble b <= 15.
Proof.
  unfold nibble.
  assert (H : Z.land b 15 = b mod 16)
    by (change 15 with (Z.ones 4); now rewrite Z.land_ones by lia).
  rewrite H. pose proof (Z.mod_pos_bound b 16). lia.
Qed.

Lemma receive_cells_range (l buf : list Z) :
  (forall j, 0 <= j < 14 -> 0 <= load buf j <= 15) ->
  forall j, 0 <= j < 14 -> 0 <= load (receive l buf) j <= 15.
Proof.
  revert buf; induction l as [|b l IH]; intros buf Hbuf j Hj;
    [now apply Hbuf|].
  cbn [receive foldl]. fold (receive l (store buf (tag b - 1) (nibble b))).
  apply IH; [|assumption].
  intros i Hi. unfold load, store. rewrite list_lookup_total_insert.
  destruct (decide _); [apply nibble_range | now apply Hbuf].
Qed.

Lemma attempt_frame (bytes_read r : Z) (buf pre : list Z)
  (ending : attempt_end) (rest frame : list Z) (out : string) (w' : world)
  (k : nat) :
  attempt_ok k bytes_read pre ending ->
  attempt_result bytes_read buf pre ending rest out = (Ret (r, frame), w') ->
  (r = 0 \/ r = -1) /\
  exists l, Forall (fun b => valid_byte b = true) l /\ frame = receive l buf.
Proof.
  intros [Hpre Hend] Hres.
  assert (Hvalid : Forall (fun b => valid_byte b = true) pre)
    by (eapply Forall_impl; [exact Hpre | intros b; apply body_byte_valid]).
  assert (Hsnoc : forall e, tag e = 14 ->
            Forall (fun b => valid_byte b = true) (pre ++ [e])).
  { intros e He. apply Forall_app; split; [assumption|].
    repeat constructor. now apply terminal_valid. }
  destruct ending; cbn [attempt_result] in Hres; try discriminate Hres;
    injection Hres as <- <- _;
    (split; [lia|]); eauto.
  - exists (pre ++ [e]). split; [apply Hsnoc; tauto | reflexivity].
  - exists (pre ++ [e]). split; [apply Hsnoc; tauto | reflexivity].
Qed.

(** X5: whatever the input, a call of [read_packet] that returns gives 0 or
    -1 and leaves a buffer of the same length in which cells 0..13 hold
    values 0..15 and every cell after them is as before: no store goes
    outside the 14 cells of the frame. *)
Theorem read_packet_frame_cells (buf : list Z) (w w' : world) (r : Z)
  (frame : list Z) :
  (14 <= length buf)%nat ->
  read_packet buf w = (Ret (r, frame), w') ->
  (r = 0 \/ r = -1) /\
  length frame = length buf /\
  drop 14 frame = drop 14 buf /\
  (forall j, 0 <= j < 14 -> 0 <= load frame j <= 15).
Proof.
  intros Hlen Hrun.
  destruct (read_packet_cases buf w)
    as (pre & ending & rest & Hin & Hok & Hres).
  rewrite Hres in Hrun.
  destruct (attempt_frame _ _ _ _ _ _ _ _ _ _ Hok Hrun)
    as (Hr & l & Hl & ->).
  split; [exact Hr | split; [|split]].
  - now rewrite length_receive, length_clear_loop.
  - rewrite drop_receive by assumption.
    rewrite clear_loop_zero by assumption.
    now rewrite drop_app_length' by (symmetry; apply length_replicate).
  - apply receive_cells_range. intros j Hj.
    rewrite load_clear_loop by assumption. lia.
Qed.

Lemma read_packet_frame_cells_witness :
  (-1 = 0 \/ -1 = -1) /\
  length [5; 7; 0; 0; 0; 0; 0; 0; 0; 0; 0; 0; 0; 1; 99] = 15%nat /\
  drop 14 [5; 7; 0; 0; 0; 0; 0; 0; 0; 0; 0; 0; 0; 1; 99] = [99] /\
  (forall j, 0 <= j < 14 ->
     0 <= load [5; 7; 0; 0; 0; 0; 0; 0; 0; 0; 0; 0; 0; 1; 99] j <= 15).
Proof.
  refine (read_packet_frame_cells
            [77; 77; 77; 77; 77; 77; 77; 77; 77; 77; 77; 77; 77; 77; 99]
            (World [0x15; 0x27; 0xE1; 0x42] "")
            (World [0x42] ("Only read 3 bytes of packet." +:+ nl))
            (-1) [5; 7; 0; 0; 0; 0; 0; 0; 0; 0; 0; 0; 0; 1; 99] _ _).
  - cbn. lia.
  - reflexivity.
Defined.

Lemma read_packet_same_tail (buf1 buf2 : list Z) (w : world) :
  (14 <= length buf1)%nat -> (14 <= length buf2)%nat ->
  drop 14 buf1 = drop 14 buf2 ->
  read_packet buf1 w = read_packet buf2 w /\
  main_body buf1 w = main_body buf2 w.
Proof.
  intros H1 H2 Htail.
  assert (Hread : read_packet buf1 w = read_packet buf2 w).
  { unfold read_packet.
    rewrite (clear_loop_zero buf1), (clear_loop_zero buf2) by assumption.
    now rewrite Htail. }
  split; [exact Hread|].
  unfold main_body, mbind, io_bind. rewrite Hread. reflexivity.
Qed.

(** X6: what a call of [read_packet], and a turn of [main], does is the
    same on two buffers that differ in cells 0..13 only: nothing of an
    earlier packet, complete or not, leaks into the next attempt. *)
Theorem read_packet_forgets (buf1 buf2 : list Z) (w : world) :
  (14 <= length buf1)%nat -> (14 <= length buf2)%nat ->
  drop 14 buf1 = drop 14 buf2 ->
  read_packet buf1 w = read_packet buf2 w /\
  main_body buf1 w = main_body buf2 w.
Proof. apply read_packet_same_tail. Qed.

Lemma read_packet_forgets_witness :
  read_packet example_frame (World [0x27; 0xE1] "")
    = read_packet fresh_buf (World [0x27; 0xE1] "") /\
  main_body example_frame (World [0x27; 0xE1] "")
    = main_body fresh_buf (World [0x27; 0xE1] "").
Proof.
  apply (read_packet_forgets example_frame fresh_buf (World [0x27; 0xE1] "")).
  - cbn. lia.
  - cbn. lia.
  - reflexivity.
Defined.

(** ** Decoded digits determine the segments *)

Lemma decode_digit_loop_found (k : nat) (n value r : Z) :
  decode_digit_loop k n value = r -> r <> -1 -> 0 <= n ->
  n <= r < n + Z.of_nat k /\ load lcd_segments r = value.
Proof.
  revert n; induction k as [|k IH]; intros n Hrun Hr Hn;
    cbn [decode_digit_loop] in Hrun; [congruence|].
  destruct (Z.eqb_spec (load lcd_segments n) value) as [Heq|_].
  - subst r. split; [lia | exact Heq].
  - destruct (IH (n + 1) Hrun Hr ltac:(lia)) as [Hrange Hval].
    split; [lia | exact Hval].
Qed.

Lemma lcd_segments_range (n : Z) :
  0 <= n < 12 -> 0 <= load lcd_segments n < 128.
Proof. intros Hn. by_cases_below 12%nat n ltac:(vm_compute; intuition congruence). Qed.

(** X7: a result of [decode_digit] other than -1 is an index [n] of the
    table whose entry is the segment code of the pair; so two pairs decode
    to the same symbol only if they have the same segment code, and no two
    patterns of lit segments are read as the same digit. *)
Theorem decode_digit_sound (byte1 byte2 : Z) :
  0 <= byte2 < 2 ^ 32 ->
  decode_digit byte1 byte2 <> -1 ->
  0 <= decode_digit byte1 byte2 < 12 /\
  load lcd_segments (decode_digit byte1 byte2) = segment_code byte1 byte2 /\
  (forall byte1' byte2',
     0 <= byte2' < 2 ^ 32 ->
     decode_digit byte1' byte2' = decode_digit byte1 byte2 ->
     segment_code byte1' byte2' = segment_code byte1 byte2).
Proof.
  assert (Hfound : forall b1 b2, 0 <= b2 < 2 ^ 32 -> decode_digit b1 b2 <> -1 ->
            0 <= decode_digit b1 b2 < 12 /\
            load lcd_segments (decode_digit b1 b2) = segment_code b1 b2).
  { intros b1 b2 Hb2 Hne.
    pose proof (decode_digit_loop_found 12 0 _ _ eq_refl Hne ltac:(lia))
      as [Hrange Hval].
    fold (segment_code b1 b2) in Hval. fold (decode_digit b1 b2) in Hval, Hrange.
    split; [lia|].
    symmetry. apply to_int_table.
    - now apply segment_code_range.
    - apply lcd_segments_range. lia.
    - now symmetry. }
  intros Hb2 Hne. destruct (Hfound byte1 byte2 Hb2 Hne) as [Hrange Hval].
  split; [exact Hrange | split; [exact Hval|]].
  intros b1 b2 Hb2' Heq.
  destruct (Hfound b1 b2 Hb2' ltac:(congruence)) as [_ Hval'].
  now rewrite <- Hval', Heq.
Qed.

Lemma decode_digit_sound_witness :
  0 <= decode_digit 0xA 0x7 < 12 /\
  load lcd_segments (decode_digit 0xA 0x7) = segment_code 0xA 0x7 /\
  (decode_digit 0x2 0x7 = decode_digit 0xA 0x7 ->
   segment_code 0x2 0x7 = segment_code 0xA 0x7).
Proof.
  pose proof (decode_digit_sound 0xA 0x7 ltac:(lia)
                ltac:(vm_compute; discriminate)) as (H1 & H2 & H3).
  split; [exact H1 | split; [exact H2|]].
  apply H3. lia.
Defined.

(** X16: the pair of nibbles that shows table symbol [d] (0..9, L or
    blank), with the sign / decimal-point segment lit or not, decodes to
    [d], and bit 3 of its first nibble gives back the segment. *)
Theorem digit_pair_decodes (d : Z) (point : bool) :
  0 <= d < 12 ->
  decode_digit (fst (digit_pair d point)) (snd (digit_pair d point)) = d /\
  Z.testbit (fst (digit_pair d point)) 3 = point /\
  0 <= fst (digit_pair d point) <= 15 /\
  0 <= snd (digit_pair d point) <= 15.
Proof.
  intros Hd.
  by_cases_below 12%nat d ltac:(destruct point; vm_compute; intuition congruence).
Qed.

Lemma digit_pair_decodes_witness :
  decode_digit (fst (digit_pair 7 true)) (snd (digit_pair 7 true)) = 7 /\
  Z.testbit (fst (digit_pair 7 true)) 3 = true /\
  0 <= fst (digit_pair 7 true) <= 15 /\
  0 <= snd (digit_pair 7 true) <= 15.
Proof. apply (digit_pair_decodes 7 true). lia. Defined.

(** ** The attribute word and the six nibbles *)

Lemma nibble_shift_bits (x s m : Z) :
  0 <= s -> 0 <= m ->
  Z.testbit (Z.shiftl (Z.land x 15) s) m =
  (s <=? m) && (m <? s + 4) && Z.testbit x (m - s).
Proof.
  intros Hs Hm. destruct (Z.leb_spec s m) as [Hle|Hlt].
  - rewrite Z.shiftl_spec, Z.land_spec by lia.
    change 15 with (Z.ones 4). rewrite Z.testbit_ones_nonneg by lia.
    destruct (Z.ltb_spec (m - s) 4), (Z.ltb_spec m (s + 4)); try lia;
      cbn [andb]; rewrite ?andb_true_r, ?andb_false_r; reflexivity.
  - now rewrite Z.shiftl_spec_low by lia.
Qed.

Lemma decode_attributes_lor (buf : list Z) :
  decode_attributes buf =
  Z.lor (Z.land (load buf 0) 15)
    (Z.lor (Z.shiftl (Z.land (load buf 9) 15) 4)
       (Z.lor (Z.shiftl (Z.land (load buf 10) 15) 8)
          (Z.lor (Z.shiftl (Z.land (load buf 11) 15) 12)
             (Z.lor (Z.shiftl (Z.land (load buf 12) 15) 16)
                (Z.shiftl (Z.land (load buf 13) 15) 20))))).
Proof.
  apply Z.bits_inj'; intros m Hm.
  rewrite <- (Z.shiftl_0_r (Z.land (load buf 0) 15)).
  rewrite decode_attributes_bits, !Z.lor_spec, !nibble_shift_bits by lia.
  destruct (Z.ltb_spec m 24) as [Hlt|Hge].
  - cbn [andb].
    by_cases_below 24%nat m
      ltac:(cbn -[Z.testbit load]; rewrite ?orb_false_r; reflexivity).
  - cbn [andb].
    repeat match goal with
    | |- context [?a <? ?b] =>
        destruct (Z.ltb_spec a b); [lia|]; rewrite ?andb_false_r; cbn [andb orb]
    end.
    reflexivity.
Qed.

(** X8: [decode_attributes] packs the low four bits of the cells at frame
    indices 0, 9, 10, 11, 12, 13 into bits 0-3, 4-7, ..., 20-23 of its
    result, which is therefore a 24-bit value: no higher bit is ever set,
    whatever the upper bits of the cells. *)
Theorem decode_attributes_packed (buf : list Z) :
  decode_attributes buf =
  Z.lor (Z.land (load buf 0) 15)
    (Z.lor (Z.shiftl (Z.land (load buf 9) 15) 4)
       (Z.lor (Z.shiftl (Z.land (load buf 10) 15) 8)
          (Z.lor (Z.shiftl (Z.land (load buf 11) 15) 12)
             (Z.lor (Z.shiftl (Z.land (load buf 12) 15) 16)
                (Z.shiftl (Z.land (load buf 13) 15) 20))))) /\
  0 <= decode_attributes buf < 2 ^ 24.
Proof.
  split; [apply decode_attributes_lor|].
  assert (Hmod : decode_attributes buf = decode_attributes buf mod 2 ^ 24).
  { apply Z.bits_inj'; intros m Hm.
    rewrite Z.testbit_mod_pow2, decode_attributes_bits by lia.
    destruct (m <? 24); reflexivity. }
  rewrite Hmod. apply Z.mod_pos_bound. lia.
Qed.

Lemma load_attribute_frame (a i : Z) :
  In i attr_indices ->
  load (attribute_frame a) i = Z.land (Z.shiftr a (attr_bit i 0)) 15.
Proof.
  unfold attr_indices; cbn [In]. intros Hi.
  repeat (destruct Hi as [<-|Hi]; [reflexivity|]). destruct Hi.
Qed.

(** X9: the attribute word and the six attribute nibbles carry the same
    information: decoding the nibbles of a 24-bit word gives the word back,
    and the nibbles of a decoded word are the low four bits of the cells
    it was decoded from. *)
Theorem attribute_frame_round_trip (a : Z) (buf : list Z) :
  0 <= a < 2 ^ 24 ->
  decode_attributes (attribute_frame a) = a /\
  (forall i, In i attr_indices ->
     load (attribute_frame (decode_attributes buf)) i = Z.land (load buf i) 15).
Proof.
  intros Ha. split.
  - apply Z.bits_inj'; intros m Hm. rewrite decode_attributes_bits by lia.
    destruct (Z.ltb_spec m 24) as [Hlt|Hge]; cbn [andb].
    + destruct (attr_bit_index m (conj Hm Hlt)) as (Hin & Hm4 & Hback).
      rewrite load_attribute_frame, Z.land_spec, Z.shiftr_spec by (tauto || lia).
      change 15 with (Z.ones 4). rewrite Z.testbit_ones_nonneg by lia.
      replace (m mod 4 <? 4) with true by (symmetry; apply Z.ltb_lt; lia).
      rewrite andb_true_r. f_equal.
      rewrite <- Hback at 3. unfold attr_bit.
      destruct (attr_index m =? 0); lia.
    + symmetry. apply (proj1 (Z.bounded_iff_bits_nonneg 24 a ltac:(lia) ltac:(lia)));
        [lia | assumption].
  - intros i Hi. rewrite load_attribute_frame by assumption.
    apply Z.bits_inj'; intros m Hm.
    rewrite !Z.land_spec, Z.shiftr_spec by lia.
    change 15 with (Z.ones 4). rewrite Z.testbit_ones_nonneg by lia.
    destruct (Z.ltb_spec m 4) as [Hlt|Hge]; [|now rewrite !andb_false_r].
    rewrite !andb_true_r.
    destruct (attr_index_bit i m Hi (conj Hm Hlt)) as (Hrange & Hidx & Hmod).
    assert (Hsum : m + attr_bit i 0 = attr_bit i m)
      by (unfold attr_bit; destruct (i =? 0); lia).
    rewrite Hsum, decode_attributes_bits by lia.
    replace (attr_bit i m <? 24) with true by (symmetry; apply Z.ltb_lt; lia).
    now rewrite Hidx, Hmod.
Qed.

Lemma attribute_frame_round_trip_witness :
  decode_attributes (attribute_frame (Z.lor (Z.lor ATTR_KILO ATTR_OHMS) ATTR_UNK_E8))
    = Z.lor (Z.lor ATTR_KILO ATTR_OHMS) ATTR_UNK_E8 /\
  load (attribute_frame (decode_attributes [0x1F; 0; 0; 0; 0; 0; 0; 0; 0; 0x22]))
       9 = Z.land 0x22 15.
Proof.
  split.
  - apply (proj1 (attribute_frame_round_trip
                    (Z.lor (Z.lor ATTR_KILO ATTR_OHMS) ATTR_UNK_E8) []
                    ltac:(vm_compute; split; [discriminate | reflexivity]))).
  - apply (proj2 (attribute_frame_round_trip 0
                    [0x1F; 0; 0; 0; 0; 0; 0; 0; 0; 0x22] ltac:(lia)) 9).
    cbn. tauto.
Defined.

(** ** The printed attributes *)

Lemma print_attributes_loop_text (k i : nat) (a : Z) (inp : list Z)
  (out : string) :
  print_attributes_loop k (Z.of_nat i) a (World inp out) =
  (Ret tt,
   World inp
     (out +:+ names_text
        (map (fun n : nat => attribute_table !!! n)
             (List.filter (fun n : nat => Z.testbit a (Z.of_nat n))
                          (seq i k))))).
Proof.
  revert i out; induction k as [|k IH]; intros i out.
  - cbn [seq List.filter map names_text foldr print_attributes_loop].
    now rewrite string_app_nil_r.
  - cbn [print_attributes_loop seq List.filter].
    rewrite land_bit_test by lia. rewrite Nat2Z.id.
    replace (Z.of_nat i + 1) with (Z.of_nat (S i)) by lia.
    io_unfold.
    destruct (Z.testbit a (Z.of_nat i)); cbn [pending stdout];
      rewrite IH; [|reflexivity].
    cbn [map names_text foldr]. fold (names_text).
    now rewrite !string_app_assoc.
Qed.

(** X10: [print_attributes] prints the table names of the bits 0..23 that
    are set, lowest bit first, each followed by a space, and reads no
    input; bits from 24 up are ignored; and on a decoded frame the names
    printed are those of the bits lit in the cells at frame indices 0 and
    9..13. *)
Theorem print_attributes_names (a : Z) (inp : list Z) (out : string) :
  print_attributes a (World inp out) =
    (Ret tt, World inp (out +:+ names_text (attribute_names a))) /\
  (forall a',
     (forall n, 0 <= n < 24 -> Z.testbit a' n = Z.testbit a n) ->
     print_attributes a' (World inp out) = print_attributes a (World inp out)) /\
  (forall buf : list Z,
     attribute_names (decode_attributes buf) =
     map (fun n : nat => attribute_table !!! n)
         (List.filter
            (fun n : nat =>
               Z.testbit (load buf (attr_index (Z.of_nat n))) (Z.of_nat n mod 4))
            (seq 0 24))).
Proof.
  assert (Hprint : forall x, print_attributes x (World inp out) =
            (Ret tt, World inp (out +:+ names_text (attribute_names x))))
    by (intros x; apply (print_attributes_loop_text 24 0)).
  split; [apply Hprint | split].
  - intros a' Hbits. rewrite !Hprint. unfold attribute_names.
    assert (Hsame : List.filter (fun n : nat => Z.testbit a' (Z.of_nat n)) (seq 0 24)
                  = List.filter (fun n : nat => Z.testbit a (Z.of_nat n)) (seq 0 24)).
    { apply filter_ext_in. intros n Hn. apply in_seq in Hn. apply Hbits. lia. }
    now rewrite Hsame.
  - intros buf. unfold attribute_names. f_equal.
    apply filter_ext_in. intros n Hn. apply in_seq in Hn.
    rewrite decode_attributes_bits by lia.
    replace (Z.of_nat n <? 24) with true by (symmetry; apply Z.ltb_lt; lia).
    reflexivity.
Qed.

Lemma print_attributes_names_witness :
  print_attributes (Z.lor ATTR_AUTO (Z.shiftl 1 30)) (World [0x27] "")
    = print_attributes ATTR_AUTO (World [0x27] "").
Proof.
  apply (proj1 (proj2 (print_attributes_names ATTR_AUTO [0x27] ""))).
  intros n Hn. by_cases_below 24%nat n ltac:(reflexivity).
Defined.

(** ** The result of print_display_number *)

Lemma digits_valid_first_bad (k : nat) (n : Z) (buf : list Z) :
  digits_valid k n buf = false ->
  exists j : nat, (j < k)%nat /\ digits_valid j n buf = true /\
                  digit_at buf (n + 2 * Z.of_nat j) = -1.
Proof.
  revert n; induction k as [|k IH]; intros n Hbad; [discriminate Hbad|].
  cbn [digits_valid] in Hbad.
  destruct (Z.eqb_spec (digit_at buf n) (-1)) as [Heq|Hne].
  - exists 0%nat. repeat split; [lia|]. now rewrite Z.add_0_r.
  - cbn [negb andb] in Hbad. destruct (IH (n + 2) Hbad) as (j & Hj & Hv & Hd).
    exists (S j). repeat split; [lia | |].
    + cbn [digits_valid]. rewrite Hv.
      destruct (Z.eqb_spec (digit_at buf n) (-1)); [contradiction | reflexivity].
    + rewrite <- Hd. f_equal. lia.
Qed.

Lemma print_display_loop_agree (k : nat) (n : Z) (buf buf' inp : list Z)
  (out : string) :
  (forall i, n <= i < n + 2 * Z.of_nat k -> load buf' i = load buf i) ->
  print_display_loop k n buf' (World inp out) =
  print_display_loop k n buf (World inp out).
Proof.
  revert n out; induction k as [|k IH]; intros n out Hagree; [reflexivity|].
  assert (Hd : digit_at buf' n = digit_at buf n)
    by (unfold digit_at; now rewrite !Hagree by lia).
  destruct (Z.eq_dec (digit_at buf n) (-1)) as [Hbad|Hok].
  - rewrite !print_display_loop_unknown by congruence.
    unfold unknown_text. now rewrite !Hagree by lia.
  - rewrite !print_display_loop_digit by congruence.
    unfold pair_text. rewrite Hd, Hagree by lia.
    apply IH. intros i Hi. apply Hagree. lia.
Qed.

(** X11: [print_display_number] returns 0 when the four pairs decode and -1
    otherwise, never anything else; it only adds text to the output and
    reads no input; and it looks at frame cells 1..8 only. *)
Theorem print_display_number_result (buf : list Z) (w : world) :
  (exists text,
     print_display_number buf w =
     (Ret (if digits_valid 4 1 buf then 0 else -1),
      World (pending w) (stdout w +:+ text))) /\
  (forall buf' : list Z,
     (forall i, 1 <= i <= 8 -> load buf' i = load buf i) ->
     print_display_number buf' w = print_display_number buf w).
Proof.
  destruct w as [inp out]. cbn [pending stdout]. split.
  - destruct (digits_valid 4 1 buf) eqn:Hvalid.
    + exists (display_prefix 4 1 buf). unfold print_display_number.
      change (print_display_loop 4) with (print_display_loop (4 + 0)).
      now rewrite print_display_loop_run.
    + destruct (digits_valid_first_bad 4 1 buf Hvalid) as (j & Hj & Hv & Hd).
      eexists. now apply (print_display_number_first_unknown buf inp out j).
  - intros buf' Hagree. apply print_display_loop_agree.
    intros i Hi. apply Hagree. lia.
Qed.

Lemma print_display_number_result_witness :
  print_display_number [0; 7; 13; 2; 7; 9; 5; 0; 5; 1; 2; 3; 4; 5; 6]
    (World [0x27] "")
    = print_display_number example_frame (World [0x27] "").
Proof.
  apply (proj2 (print_display_number_result example_frame (World [0x27] ""))).
  intros i Hi. by_cases_below 9%nat i ltac:(reflexivity).
Defined.

(** ** A turn of main *)

Lemma print_display_number_text (buf inp : list Z) (out : string) :
  exists text,
    print_display_number buf (World inp out) =
    (Ret (if digits_valid 4 1 buf then 0 else -1), World inp (out +:+ text)).
Proof.
  destruct (digits_valid 4 1 buf) eqn:Hvalid.
  - exists (display_prefix 4 1 buf). unfold print_display_number.
    change (print_display_loop 4) with (print_display_loop (4 + 0)).
    now rewrite print_display_loop_run.
  - destruct (digits_valid_first_bad 4 1 buf Hvalid) as (j & Hj & Hv & Hd).
    eexists. now apply (print_display_number_first_unknown buf inp out j).
Qed.

Lemma main_body_line (buf0 frame inp rest : list Z) (out out1 : string) :
  read_packet buf0 (World inp out) = (Ret (0, frame), World rest out1) ->
  digits_valid 4 1 frame = true ->
  main_body buf0 (World inp out) =
  (Ret frame,
   World rest
     (out1 +:+ (display_prefix 4 1 frame +:+ " " +:+
                names_text (attribute_names (decode_attributes frame)) +:+ nl))).
Proof.
  intros Hread Hvalid.
  assert (Hprint : print_display_number frame (World rest out1) =
                   (Ret 0, World rest (out1 +:+ display_prefix 4 1 frame))).
  { unfold print_display_number.
    change (print_display_loop 4) with (print_display_loop (4 + 0)).
    now rewrite print_display_loop_run. }
  unfold main_body, mbind, io_bind. rewrite Hread. cbn [Z.eqb negb].
  rewrite Hprint. cbn [Z.eqb negb]. unfold printf at 1. cbn [pending stdout].
  unfold print_attributes.
  rewrite (print_attributes_loop_text 24 0).
  unfold attribute_names, printf, mret, io_ret. cbn [pending stdout].
  rewrite !string_app_assoc. reflexivity.
Qed.

(** X12: for a complete frame whose four pairs decode, a turn of [main]
    prints one line: the display text, a space, the names of the decoded
    attributes each followed by a space, and a newline; nothing was printed
    while the packet was read, and the turn leaves unread what [read_packet]
    left. *)
Theorem main_body_reading (buf0 : list Z) (w w1 : world) (frame : list Z) :
  read_packet buf0 w = (Ret (0, frame), w1) ->
  digits_valid 4 1 frame = true ->
  stdout w1 = stdout w /\
  main_body buf0 w =
  (Ret frame,
   World (pending w1)
     (stdout w +:+ (display_prefix 4 1 frame +:+ " " +:+
                    names_text (attribute_names (decode_attributes frame)) +:+ nl))).
Proof.
  intros Hread Hvalid. destruct w as [inp out], w1 as [rest out1].
  cbn [pending stdout].
  assert (Hout : out1 = out).
  { destruct (read_packet_cases buf0 (World inp out))
      as (pre & ending & rest' & _ & _ & Hres).
    rewrite Hres in Hread. cbn [stdout] in Hread.
    destruct ending; cbn [attempt_result] in Hread; try discriminate Hread.
    now injection Hread as _ _ <-. }
  subst out1. split; [reflexivity|]. now apply main_body_line.
Qed.

Lemma main_body_reading_witness :
  "" = "" /\
  main_body fresh_buf (World example_packet "") =
  (Ret example_frame,
   World [] ("" +:+ ("04.71" +:+ " " +:+ "kilo Ohms (unknown E8) " +:+ nl))).
Proof.
  apply (main_body_reading fresh_buf (World example_packet "") (World [] "")
           example_frame); reflexivity.
Defined.

(** ** The loop of main *)

Lemma main_body_turn (buf : list Z) (w : world) :
  main_body buf w = (Exit 0, World [] (stdout w +:+ ("Read EOF" +:+ nl))) \/
  exists frame rest text,
    main_body buf w = (Ret frame, World rest (stdout w +:+ text)) /\
    (length rest < length (pending w))%nat.
Proof.
  destruct w as [inp out].
  destruct (read_packet_cases buf (World inp out))
    as (pre & ending & rest & Hin & [Hpre Hend] & Hres).
  cbn [pending stdout] in *. subst inp.
  assert (Hshort : forall (x : Z), (length rest < length (pre ++ x :: rest))%nat)
    by (intros x; rewrite length_app; cbn [length]; lia).
  destruct ending; cbn [attempt_result attempt_input] in *.
  - left. unfold main_body, mbind, io_bind. now rewrite Hres.
  - right. eexists _, rest, _. split; [|apply Hshort].
    eapply main_body_discard; [exact Hres | lia].
  - right. eexists _, rest, _. split; [|apply Hshort].
    eapply main_body_discard; [exact Hres | lia].
  - right. eexists _, rest, _. split; [|apply Hshort].
    eapply main_body_discard; [exact Hres | lia].
  - right.
    destruct (print_display_number_text (receive (pre ++ [e]) (clear_loop 14 0 buf))
                rest out) as [text Hprint].
    destruct (digits_valid 4 1 (receive (pre ++ [e]) (clear_loop 14 0 buf)))
      eqn:Hvalid.
    + eexists _, rest, _. split; [|apply Hshort].
      eapply main_body_line; [exact Hres | exact Hvalid].
    + eexists _, rest, text. split; [|apply Hshort].
      eapply main_body_skip; [exact Hres | exact Hprint | lia].
  - right. eexists _, rest, _. split.
    + eapply main_body_discard; [exact Hres | lia].
    + unfold attempt_input. rewrite length_app. lia.
Qed.

Lemma main_loop_exits_within (n : nat) :
  forall (inp buf : list Z) (out : string),
    (length inp <= n)%nat ->
    exists text,
      forall fuel, (n < fuel)%nat ->
        main_loop fuel buf (World inp out) =
        Some (0, World [] (out +:+ text +:+ ("Read EOF" +:+ nl))).
Proof.
  induction n as [|n IH]; intros inp buf out Hlen;
    destruct (main_body_turn buf (World inp out))
      as [Hexit | (frame & rest & text1 & Hturn & Hrest)];
    cbn [pending stdout] in *.
  - exists "". intros [|fuel] Hfuel; [lia|].
    cbn [main_loop]. now rewrite Hexit.
  - lia.
  - exists "". intros [|fuel] Hfuel; [lia|].
    cbn [main_loop]. now rewrite Hexit.
  - destruct (IH rest frame (out +:+ text1) ltac:(lia)) as [text2 Hloop].
    exists (text1 +:+ text2). intros [|fuel] Hfuel; [lia|].
    cbn [main_loop]. rewrite Hturn, Hloop by lia.
    now rewrite !string_app_assoc.
Qed.

(** X13: on an input that ends, [main]'s loop ends too: within one turn per
    input byte plus one it has read every byte and the process has exited
    with status 0, the last text printed being "Read EOF"; more turns
    change nothing.  (The loop itself never falls through to [return 0].) *)
Theorem main_loop_exits (buf inp : list Z) (out : string) :
  exists text,
    forall fuel, (length inp < fuel)%nat ->
      main_loop fuel buf (World inp out) =
      Some (0, World [] (out +:+ text +:+ ("Read EOF" +:+ nl))).
Proof. now apply (main_loop_exits_within (length inp)). Qed.

Lemma main_loop_exits_witness :
  exists text,
    main_loop 4 fresh_buf (World [0x27; 0x00; 0xF1] "") =
    Some (0, World [] ("" +:+ text +:+ ("Read EOF" +:+ nl))).
Proof.
  destruct (main_loop_exits fresh_buf [0x27; 0x00; 0xF1] "") as [text Hloop].
  exists text. apply Hloop. cbn. lia.
Defined.

(** ** What the meter sends, and what read_packet makes of it *)

Lemma meter_byte_fields (i : nat) (v : Z) :
  (i < 14)%nat -> 0 <= v <= 15 ->
  tag (meter_byte i v) = Z.of_nat i + 1 /\ nibble (meter_byte i v) = v.
Proof.
  intros Hi Hv.
  do 14 (destruct i as [|i];
         [by_cases_below 16%nat v ltac:(vm_compute; intuition congruence)|]).
  lia.
Qed.

Lemma store_meter_byte (buf : list Z) (i : nat) (v : Z) :
  (i < 14)%nat -> 0 <= v <= 15 ->
  store buf (tag (meter_byte i v) - 1) (nibble (meter_byte i v)) = <[i := v]> buf.
Proof.
  intros Hi Hv. destruct (meter_byte_fields i v Hi Hv) as [-> ->].
  unfold store. f_equal. lia.
Qed.

Lemma meter_byte_body (i : nat) (v : Z) :
  (i < 13)%nat -> 0 <= v <= 15 -> body_byte (meter_byte i v) = true.
Proof.
  intros Hi Hv. apply body_byte_tag.
  destruct (meter_byte_fields i v ltac:(lia) Hv) as [-> _]. lia.
Qed.

Lemma read_packet_meter_packet (cells rest buf : list Z) (out : string) :
  length cells = 14%nat -> Forall (fun v => 0 <= v <= 15) cells ->
  (14 <= length buf)%nat ->
  read_packet buf (World (meter_packet cells ++ rest) out)
    = (Ret (0, cells ++ drop 14 buf), World rest out) /\
  (load cells 0 = 0 ->
   read_packet buf (World (tail (meter_packet cells) ++ rest) out)
     = (Ret (0, cells ++ drop 14 buf), World rest out)).
Proof.
  intros Hlen Hcells Hbuf.
  destruct cells as [|c0 [|c1 [|c2 [|c3 [|c4 [|c5 [|c6 [|c7 [|c8 [|c9 [|c10 [|c11 [|c12 [|c13 cells]]]]]]]]]]]]]];
    try discriminate Hlen.
  destruct cells; [clear Hlen | discriminate Hlen].
  repeat match goal with
  | H : Forall _ (_ :: _) |- _ => apply Forall_cons in H as [? H]
  end.
  split; [|intros Hc0; change (c0 = 0) in Hc0; subst c0].
  - pose proof
      (read_packet_terminal
         [meter_byte 0 c0; meter_byte 1 c1; meter_byte 2 c2;
          meter_byte 3 c3; meter_byte 4 c4; meter_byte 5 c5;
          meter_byte 6 c6; meter_byte 7 c7; meter_byte 8 c8;
          meter_byte 9 c9; meter_byte 10 c10; meter_byte 11 c11;
          meter_byte 12 c12]
         (meter_byte 13 c13) rest buf out) as Hread.
    cbv zeta in Hread.
    cbn [length app Z.of_nat Pos.of_succ_nat Pos.succ Z.add
         Pos.add Z.ltb Z.compare Pos.compare Pos.compare_cont] in Hread.
    rewrite clear_loop_zero in Hread by assumption.
    unfold receive in Hread. cbn [foldl] in Hread.
    rewrite !store_meter_byte in Hread by (assumption || lia).
    apply Hread.
    + repeat constructor; apply meter_byte_body; (assumption || lia).
    + apply (proj1 (meter_byte_fields 13 c13 ltac:(lia) ltac:(assumption))).
    + cbn. lia.
  - pose proof
      (read_packet_terminal
         [meter_byte 1 c1; meter_byte 2 c2; meter_byte 3 c3;
          meter_byte 4 c4; meter_byte 5 c5; meter_byte 6 c6;
          meter_byte 7 c7; meter_byte 8 c8; meter_byte 9 c9;
          meter_byte 10 c10; meter_byte 11 c11; meter_byte 12 c12]
         (meter_byte 13 c13) rest buf out) as Hread.
    cbv zeta in Hread.
    cbn [length app Z.of_nat Pos.of_succ_nat Pos.succ Z.add
         Pos.add Z.ltb Z.compare Pos.compare Pos.compare_cont] in Hread.
    rewrite clear_loop_zero in Hread by assumption.
    unfold receive in Hread. cbn [foldl] in Hread.
    rewrite !store_meter_byte in Hread by (assumption || lia).
    apply Hread.
    + repeat constructor; apply meter_byte_body; (assumption || lia).
    + apply (proj1 (meter_byte_fields 13 c13 ltac:(lia) ltac:(assumption))).
    + cbn. lia.
Qed.

(** X14: [read_packet] undoes the meter's framing.  The 14 bytes that carry
    the nibbles of a frame in sequence, each with its position in the upper
    four bits, are accepted and give that frame back; and when the first
    nibble is 0 the same holds for the 13 bytes without the first one. *)
Theorem meter_packet_round_trip (cells rest buf : list Z) (out : string) :
  length cells = 14%nat -> Forall (fun v => 0 <= v <= 15) cells ->
  (14 <= length buf)%nat ->
  read_packet buf (World (meter_packet cells ++ rest) out)
    = (Ret (0, cells ++ drop 14 buf), World rest out) /\
  (load cells 0 = 0 ->
   read_packet buf (World (tail (meter_packet cells) ++ rest) out)
     = (Ret (0, cells ++ drop 14 buf), World rest out)).
Proof. apply read_packet_meter_packet. Qed.

Lemma meter_packet_round_trip_witness :
  read_packet fresh_buf
    (World ([0x10; 0x27; 0x3D; 0x42; 0x57; 0x69; 0x75; 0x80; 0x95; 0xA2; 0xB0;
             0xC4; 0xD0; 0xE8] ++ [0x27]) "")
    = (Ret (0, example_frame), World [0x27] "") /\
  read_packet fresh_buf (World (example_packet ++ []) "")
    = (Ret (0, example_frame), World [] "").
Proof.
  split.
  - refine (proj1 (meter_packet_round_trip
                     [0; 7; 13; 2; 7; 9; 5; 0; 5; 2; 0; 4; 0; 8] [0x27]
                     fresh_buf "" _ _ _)).
    + reflexivity.
    + repeat constructor; lia.
    + cbn. lia.
  - refine (proj2 (meter_packet_round_trip
                     [0; 7; 13; 2; 7; 9; 5; 0; 5; 2; 0; 4; 0; 8] []
                     fresh_buf "" _ _ _) _).
    + reflexivity.
    + repeat constructor; lia.
    + cbn. lia.
    + reflexivity.
Defined.

(** ** The stty command *)

Lemma string_length_app (a b : string) :
  String.length (a +:+ b) = (String.length a + String.length b)%nat.
Proof.
  induction a as [|ch a IH]; [reflexivity|].
  change (S (String.length (a +:+ b)) = S (String.length a + String.length b)).
  now rewrite IH.
Qed.

(** X15: the command that [configure_serial_port] formats is 21 characters
    longer than the device name.  With its terminating zero it fits the 64
    bytes of [string] when the name has at most 42 characters (the default
    "/dev/ttyS0" does), and the function then returns what [system] returns
    for that command; a longer name makes [sprintf] write past the end of
    the array, and nothing is promised. *)
Theorem stty_command_length (system : string -> Z) (dev : string) :
  String.length (stty_command dev) = (21 + String.length dev)%nat /\
  ((String.length dev <= 42)%nat ->
   configure_serial_port system dev = Some (system (stty_command dev))) /\
  ((42 < String.length dev)%nat -> configure_serial_port system dev = None) /\
  configure_serial_port system "/dev/ttyS0"
    = Some (system "stty -F /dev/ttyS0 2400 -parity").
Proof.
  assert (Hlen : String.length (stty_command dev) = (21 + String.length dev)%nat).
  { unfold stty_command. rewrite !string_length_app. cbn [String.length]. lia. }
  split; [exact Hlen | split; [|split; [|reflexivity]]];
    intros Hdev; unfold configure_serial_port, sprintf_string; rewrite Hlen.
  - destruct (Nat.leb_spec (21 + String.length dev + 1) 64); [reflexivity | lia].
  - destruct (Nat.leb_spec (21 + String.length dev + 1) 64); [lia | reflexivity].
Qed.

Lemma stty_command_length_witness :
  configure_serial_port (fun _ => 0) "/dev/ttyUSB0"
    = Some 0 /\
  configure_serial_port (fun _ => 0)
    "/dev/serial/by-id/usb-Prolific_Technology_Inc._USB-Serial_Controller-if00"
    = None.
Proof.
  split.
  - apply (proj1 (proj2 (stty_command_length (fun _ => 0) "/dev/ttyUSB0"))).
    cbn. lia.
  - apply (proj1 (proj2 (proj2 (stty_command_length (fun _ => 0)
      "/dev/serial/by-id/usb-Prolific_Technology_Inc._USB-Serial_Controller-if00")))).
    cbn. lia.
Defined.

(** ** Recovery after a failed attempt *)

Lemma main_loop_same_tail (fuel : nat) (buf1 buf2 : list Z) (w : world) :
  (14 <= length buf1)%nat -> (14 <= length buf2)%nat ->
  drop 14 buf1 = drop 14 buf2 ->
  main_loop fuel buf1 w = main_loop fuel buf2 w.
Proof.
  intros H1 H2 Htail. destruct fuel as [|fuel]; [reflexivity|].
  cbn [main_loop].
  now rewrite (proj2 (read_packet_same_tail buf1 buf2 w H1 H2 Htail)).
Qed.

Lemma receive_clear_same_tail (l buf : list Z) :
  (14 <= length buf)%nat -> Forall (fun b => valid_byte b = true) l ->
  (14 <= length (receive l (clear_loop 14 0 buf)))%nat /\
  drop 14 (receive l (clear_loop 14 0 buf)) = drop 14 buf.
Proof.
  intros Hlen Hl. split.
  - now rewrite length_receive, length_clear_loop.
  - rewrite drop_receive by assumption.
    rewrite clear_loop_zero by assumption.
    now rewrite drop_app_length' by (symmetry; apply length_replicate).
Qed.

(** X18: after an attempt that fails (a zero byte, a byte with tag 0 or 15,
    a byte with tag 14 among the first 12 bytes, or 15 bytes without one),
    [main] has printed the one message of that failure and carries on with
    the bytes left unread exactly as if it had been started on them: the
    failed attempt costs one turn and leaves no other trace. *)
Theorem main_loop_resumes (pre : list Z) (ending : attempt_end)
  (rest buf : list Z) (out : string) (fuel : nat) :
  (14 <= length buf)%nat ->
  attempt_ok 15 0 pre ending -> attempt_failed ending = true ->
  main_loop (S fuel) buf (World (attempt_input pre ending rest) out) =
  main_loop fuel buf (World rest (out +:+ attempt_message pre ending)).
Proof.
  intros Hbuf Hok Hfailed.
  pose proof (read_packet_attempt pre ending rest buf out Hok) as Hread.
  assert (Hres : exists frame,
            attempt_result 0 (clear_loop 14 0 buf) pre ending rest out =
            (Ret (-1, frame), World rest (out +:+ attempt_message pre ending)))
    by (destruct ending; try discriminate Hfailed; eexists; reflexivity).
  destruct Hres as [frame Hres]. rewrite Hres in Hread.
  destruct (attempt_frame _ _ _ _ _ _ _ _ _ _ Hok Hres) as (_ & l & Hl & ->).
  cbn [main_loop].
  rewrite (main_body_discard _ _ _ _ _ Hread ltac:(lia)).
  destruct (receive_clear_same_tail l buf Hbuf Hl) as [Hlen Htail].
  now apply main_loop_same_tail.
Qed.

Lemma main_loop_resumes_witness :
  main_loop 3 fresh_buf (World [0x27; 0x3D; 0x00; 0x42; 0xE1] "") =
  main_loop 2 fresh_buf (World [0x42; 0xE1] ("" +:+ ("Meter ON." +:+ nl))).
Proof.
  apply (main_loop_resumes [0x27; 0x3D] AtPowerOn [0x42; 0xE1] fresh_buf "" 2).
  - cbn. lia.
  - split; [repeat constructor | cbn; lia].
  - reflexivity.
Defined.

(** ** A stream of packets *)

Lemma load_app_frame (cells tl : list Z) (i : Z) :
  0 <= i < Z.of_nat (length cells) -> load (cells ++ tl) i = load cells i.
Proof. intros Hi. unfold load. apply lookup_total_app_l. lia. Qed.

Lemma reading_line_app (cells tl : list Z) :
  length cells = 14%nat ->
  reading_line (cells ++ tl) = reading_line cells /\
  digits_valid 4 1 (cells ++ tl) = digits_valid 4 1 cells.
Proof.
  intros Hlen.
  destruct (display_prefix_agree 4 1 cells (cells ++ tl)) as [Hp Hv].
  { intros i Hi. apply load_app_frame. lia. }
  split; [|exact Hv]. unfold reading_line. rewrite Hp.
  assert (Hattr : decode_attributes (cells ++ tl) = decode_attributes cells).
  { apply Z.bits_inj'; intros m Hm. rewrite !decode_attributes_bits by lia.
    destruct (Z.ltb_spec m 24) as [Hlt|_]; [|reflexivity]. cbn [andb].
    destruct (attr_bit_index m (conj Hm Hlt)) as (Hin & _ & _).
    rewrite load_app_frame; [reflexivity|].
    unfold attr_indices in Hin; cbn [In] in Hin. lia. }
  now rewrite Hattr.
Qed.

Lemma main_body_empty (buf : list Z) (out : string) :
  main_body buf (World [] out) = (Exit 0, World [] (out +:+ ("Read EOF" +:+ nl))).
Proof. reflexivity. Qed.

(** X17: fed the packets of a sequence of frames, one after the other,
    [main] prints the reading line of each frame in order, then "Read EOF",
    and exits with status 0; it needs one turn per packet and one more. *)
Theorem main_loop_packets (frames : list (list Z)) (buf : list Z)
  (out : string) (fuel : nat) :
  Forall meter_frame frames -> (14 <= length buf)%nat ->
  (length frames < fuel)%nat ->
  main_loop fuel buf (World (concat (map meter_packet frames)) out) =
  Some (0, World [] (out +:+ foldr (fun cells text => reading_line cells +:+ text)
                               ("Read EOF" +:+ nl) frames)).
Proof.
  intros Hframes. revert buf out fuel.
  induction Hframes as [|cells frames (Hlen & Hcells & Hvalid) _ IH];
    intros buf out [|fuel] Hbuf Hfuel; cbn [length] in Hfuel; try lia.
  - cbn [main_loop map concat foldr]. now rewrite main_body_empty.
  - cbn [main_loop map concat foldr].
    pose proof (proj1 (read_packet_meter_packet cells
                         (concat (map meter_packet frames)) buf out
                         Hlen Hcells Hbuf)) as Hread.
    destruct (reading_line_app cells (drop 14 buf) Hlen) as [Hline Hv].
    rewrite (main_body_line _ _ _ _ _ _ Hread) by (now rewrite Hv).
    fold (reading_line (cells ++ drop 14 buf)). rewrite Hline.
    rewrite IH by (rewrite ?length_app; lia).
    now rewrite string_app_assoc.
Qed.

Lemma main_loop_packets_witness :
  main_loop 3 fresh_buf
    (World (concat (map meter_packet
                      [[0; 7; 13; 2; 7; 9; 5; 0; 5; 2; 0; 4; 0; 8];
                       [2; 0; 5; 0xA; 7; 7; 13; 7; 13; 0; 0; 0; 4; 8]])) "")
  = Some (0, World [] ("" +:+ ("04.71 kilo Ohms (unknown E8) " +:+ nl)
                          +:+ ("1.400 AUTO Volts (unknown E8) " +:+ nl)
                          +:+ ("Read EOF" +:+ nl))).
Proof.
  apply (main_loop_packets
           [[0; 7; 13; 2; 7; 9; 5; 0; 5; 2; 0; 4; 0; 8];
            [2; 0; 5; 0xA; 7; 7; 13; 7; 13; 0; 0; 0; 4; 8]] fresh_buf "" 3).
  - repeat constructor; lia.
  - cbn. lia.
  - cbn. lia.
Defined.

(** ** Marks and digits, whatever the frame *)

Lemma display_prefix_snoc (j : nat) (n : Z) (buf : list Z) :
  display_prefix (S j) n buf =
  display_prefix j n buf +:+ pair_text buf (n + 2 * Z.of_nat j).
Proof.
  revert n; induction j as [|j IH]; intros n.
  - cbn [display_prefix]. rewrite string_app_nil_r, string_app_nil_l.
    f_equal. lia.
  - cbn [display_prefix] in *. rewrite IH, string_app_assoc.
    do 3 f_equal. lia.
Qed.

Lemma digits_valid_snoc (j : nat) (n : Z) (buf : list Z) :
  digits_valid j n buf = true -> digit_at buf (n + 2 * Z.of_nat j) <> -1 ->
  digits_valid (S j) n buf = true.
Proof.
  revert n; induction j as [|j IH]; intros n Hvalid Hdigit.
  - cbn [digits_valid]. rewrite Z.add_0_r in Hdigit.
    now destruct (Z.eqb_spec (digit_at buf n) (-1)).
  - cbn [digits_valid] in Hvalid |- *.
    apply andb_true_iff in Hvalid as [Hn Hrest]. rewrite Hn. cbn [andb].
    apply (IH (n + 2)); [exact Hrest|].
    now replace (n + 2 + 2 * Z.of_nat j) with (n + 2 * Z.of_nat (S j)) by lia.
Qed.

Lemma print_display_loop_text (k : nat) (n : Z) (buf inp : list Z)
  (out : string) :
  exists r text,
    print_display_loop k n buf (World inp out) =
    (Ret r, World inp (out +:+ text)).
Proof.
  revert n out; induction k as [|k IH]; intros n out.
  - exists 0, "". cbn [print_display_loop]. now rewrite string_app_nil_r.
  - destruct (Z.eq_dec (digit_at buf n) (-1)) as [Hbad|Hok].
    + eexists _, _. now apply print_display_loop_unknown.
    + rewrite print_display_loop_digit by assumption.
      destruct (IH (n + 2) (out +:+ pair_text buf n)) as (r & text & ->).
      exists r, (pair_text buf n +:+ text). now rewrite string_app_assoc.
Qed.

(** C6 (amended): for every digit pair that [print_display_number] reaches
    (all four when every pair decodes, otherwise the pairs up to and
    including the first one that does not decode), bit 3 of the pair's
    first nibble set means: on the first pair a minus sign, on pairs 2-4 a
    decimal point, printed immediately before the digit of that same pair
    (so the point follows the digit of the pair before), or before the
    "Unknown digit" message when the pair does not decode; clear means no
    mark there.  The pairs after an undecodable pair are not looked at, so
    their bit 3 prints nothing.  Flipping bit 3 never changes the decoded
    digit. *)
Theorem print_display_number_marks (buf inp : list Z) (out : string) :
  (digits_valid 4 1 buf = true ->
   print_display_number buf (World inp out) =
   (Ret 0,
    World inp (out +:+ (mark_text 1 (load buf 1) +:+ digit_text (digit_at buf 1) +:+
                        mark_text 3 (load buf 3) +:+ digit_text (digit_at buf 3) +:+
                        mark_text 5 (load buf 5) +:+ digit_text (digit_at buf 5) +:+
                        mark_text 7 (load buf 7) +:+ digit_text (digit_at buf 7))))) /\
  (forall j : nat, (j < 4)%nat -> digits_valid j 1 buf = true ->
     let n := 1 + 2 * Z.of_nat j in
     exists tail,
       stdout (snd (print_display_number buf (World inp out))) =
       out +:+ (display_prefix j 1 buf +:+ mark_text n (load buf n) +:+
                (if digit_at buf n =? -1 then unknown_text buf n
                 else digit_text (digit_at buf n) +:+ tail))) /\
  (forall j : nat, (j < 4)%nat -> digits_valid j 1 buf = true ->
     let n := 1 + 2 * Z.of_nat j in
     digit_at buf n = -1 ->
     print_display_number buf (World inp out) =
     (Ret (-1),
      World inp (out +:+ (display_prefix j 1 buf +:+ mark_text n (load buf n) +:+
                          unknown_text buf n)))) /\
  (forall byte1 byte2,
     decode_digit (Z.lxor byte1 8) byte2 = decode_digit byte1 byte2).
Proof.
  split; [|split; [|split]].
  - intros Hvalid. unfold print_display_number.
    change (print_display_loop 4) with (print_display_loop (4 + 0)).
    rewrite (print_display_loop_run 4 0 1 buf inp out Hvalid).
    cbn [print_display_loop display_prefix]. unfold pair_text.
    change (1 + 2) with 3. change (3 + 2) with 5. change (5 + 2) with 7.
    rewrite !string_app_assoc, string_app_nil_r. reflexivity.
  - intros j Hj Hvalid n.
    destruct (Z.eqb_spec (digit_at buf n) (-1)) as [Hbad|Hok].
    + exists "".
      now rewrite (print_display_number_first_unknown buf inp out j Hj Hvalid Hbad).
    + unfold print_display_number.
      replace 4%nat with (S j + (3 - j))%nat by lia.
      rewrite print_display_loop_run by (now apply digits_valid_snoc).
      destruct (print_display_loop_text (3 - j) (1 + 2 * Z.of_nat (S j)) buf inp
                  (out +:+ display_prefix (S j) 1 buf)) as (r & text & ->).
      exists text. cbn [snd stdout].
      rewrite display_prefix_snoc. unfold pair_text. fold n.
      now rewrite !string_app_assoc.
  - intros j Hj Hvalid n Hbad.
    now apply print_display_number_first_unknown.
  - intros byte1 byte2. unfold decode_digit. now rewrite land_7_flip_bit3.
Qed.

Lemma print_display_number_marks_witness :
  print_display_number example_frame (World [] "") = (Ret 0, World [] "04.71") /\
  (exists tail,
     stdout (snd (print_display_number example_frame (World [] ""))) =
     "" +:+ ("04" +:+ "." +:+ "7" +:+ tail)) /\
  print_display_number [0; 7; 13; 0; 1; 9; 5; 8; 5; 2; 0; 4; 0; 8; 0]
    (World [] "")
    = (Ret (-1), World [] ("0Unknown digit 0 1" +:+ nl)).
Proof.
  split; [|split].
  - apply (proj1 (print_display_number_marks example_frame [] "") eq_refl).
  - apply (proj1 (proj2 (print_display_number_marks example_frame [] ""))
             2%nat ltac:(lia) eq_refl).
  - apply (proj1 (proj2 (proj2 (print_display_number_marks
                                  [0; 7; 13; 0; 1; 9; 5; 8; 5; 2; 0; 4; 0; 8; 0]
                                  [] "")))
             1%nat ltac:(lia) eq_refl eq_refl).
Defined.

(** ** The example packet, from any buffer *)

(** C2: whatever the buffer held before (14 cells or more), the packet
    27 3D 42 57 69 75 80 95 A2 B0 C4 D0 E8, which has no byte of tag 1, is
    accepted and leaves the frame 0 7 D 2 7 9 5 0 5 2 0 4 0 8; its pairs
    decode to the digits 0, 4, 7, 1, bit 3 is set in the third pair only
    (frame index 5) so that the display reads 04.71 with no sign, and the
    attributes are exactly kilo, Ohms and the unknown E8. *)
Theorem example_packet_decodes (buf rest : list Z) (out : string) :
  (14 <= length buf)%nat ->
  let frame := [0; 0x7; 0xD; 0x2; 0x7; 0x9; 0x5; 0x0; 0x5; 0x2; 0x0; 0x4; 0x0; 0x8]
               ++ drop 14 buf in
  read_packet buf (World (example_packet ++ rest) out)
    = (Ret (0, frame), World rest out) /\
  map (digit_at frame) [1; 3; 5; 7] = [0; 4; 7; 1] /\
  map (fun n => Z.testbit (load frame n) 3) [1; 3; 5; 7]
    = [false; false; true; false] /\
  print_display_number frame (World rest out)
    = (Ret 0, World rest (out +:+ "04.71")) /\
  decode_attributes frame
    = Z.lor (Z.lor ATTR_KILO ATTR_OHMS) ATTR_UNK_E8 /\
  print_attributes (decode_attributes frame) (World rest out)
    = (Ret tt, World rest (out +:+ "kilo Ohms (unknown E8) ")) /\
  main_body buf (World (example_packet ++ rest) out)
    = (Ret frame,
       World rest (out +:+ ("04.71 kilo Ohms (unknown E8) " +:+ nl))).
Proof.
  intros Hbuf frame.
  assert (Hread : read_packet buf (World (example_packet ++ rest) out)
                  = (Ret (0, frame), World rest out)).
  { pose proof (read_packet_terminal
                  [0x27; 0x3D; 0x42; 0x57; 0x69; 0x75; 0x80; 0x95; 0xA2; 0xB0;
                   0xC4; 0xD0] 0xE8 rest buf out) as Hterm.
    cbv zeta in Hterm. rewrite clear_loop_zero in Hterm by assumption.
    apply Hterm; [repeat constructor | reflexivity | cbn; lia]. }
  assert (Hvalid : digits_valid 4 1 frame = true) by reflexivity.
  assert (Htext : display_prefix 4 1 frame = "04.71") by reflexivity.
  assert (Hattr : decode_attributes frame
                  = Z.lor (Z.lor ATTR_KILO ATTR_OHMS) ATTR_UNK_E8)
    by reflexivity.
  split; [exact Hread|].
  split; [reflexivity|]. split; [reflexivity|].
  split.
  { unfold print_display_number.
    change (print_display_loop 4) with (print_display_loop (4 + 0)).
    rewrite (print_display_loop_run 4 0 1 frame rest out Hvalid).
    now rewrite Htext. }
  split; [exact Hattr|].
  split.
  { rewrite Hattr. apply (print_attributes_loop_text 24 0). }
  rewrite (main_body_line _ _ _ _ _ _ Hread Hvalid), Htext, Hattr.
  reflexivity.
Qed.

Lemma example_packet_decodes_witness :
  read_packet [77; 77; 77; 77; 77; 77; 77; 77; 77; 77; 77; 77; 77; 77; 99]
    (World (example_packet ++ [0x27]) "")
    = (Ret (0, [0; 7; 13; 2; 7; 9; 5; 0; 5; 2; 0; 4; 0; 8; 99]), World [0x27] "") /\
  main_body [77; 77; 77; 77; 77; 77; 77; 77; 77; 77; 77; 77; 77; 77; 99]
    (World (example_packet ++ [0x27]) "")
    = (Ret [0; 7; 13; 2; 7; 9; 5; 0; 5; 2; 0; 4; 0; 8; 99],
       World [0x27] ("" +:+ ("04.71 kilo Ohms (unknown E8) " +:+ nl))).
Proof.
  pose proof (example_packet_decodes
                [77; 77; 77; 77; 77; 77; 77; 77; 77; 77; 77; 77; 77; 77; 99]
                [0x27] "" ltac:(cbn; lia)) as H.
  cbv zeta in H.
  split; [exact (proj1 H) | exact (proj2 (proj2 (proj2 (proj2 (proj2 (proj2 H))))))].
Defined.
